(** * jambonz-ui: normalizers, variant classes and the media-query hook

    A shallow embedding of [src/components/jambonz-ui.js] and the properties
    its specification states about it.

    Conventions of the embedding:
    - a JavaScript string is a [string]; each character stands for one code
      unit below 256 (the Latin-1 range), on which [toLowerCase] is the
      platform's [String.prototype.toLowerCase];
    - a JavaScript value handed to a normalizer is a [value]: the data that
      static content files can hold, and [String] wrapper objects; functions
      are not data, so an object of a [value] has data properties only;
    - a call that can throw returns a [result];
    - React and the platform's [matchMedia] are external: their part of the
      hook's life cycle is written out in [Module Hook]. *)

From Stdlib Require Import Ascii String List Bool Arith Lia.
From Stdlib Require Import Floats.PrimFloat.
From stdpp Require Import base gmap strings list.

Open Scope string_scope.

Set Warnings "-register-all,-clear-no-such-hyp".

#[local] Arguments String.append !s1 s2 : simpl nomatch.

(** ** JavaScript values and errors *)

Inductive value : Type :=
| VUndefined
| VNull
| VBool (b : bool)
| VNum (n : float)
| VStr (s : string)
| VStringObj (s : string)
| VArr (items : list value)
| VObj (props : list (string * value)).

Inductive error : Type :=
| TypeError (msg : string)
| Error (msg : string).

Inductive result (A : Type) : Type :=
| Ok (a : A)
| Throw (e : error).

Arguments Ok {A} a.
Arguments Throw {A} e.

Definition returns {A : Type} (r : result A) : Prop := exists a, r = Ok a.
Definition raises {A : Type} (r : result A) : Prop := exists e, r = Throw e.

(** [ToBoolean]: what [if (v)] and [!v] test.  Every object is truthy, a
    [String] object around the empty string too. *)
Definition to_boolean (v : value) : bool :=
  match v with
  | VUndefined | VNull => false
  | VBool b => b
  | VNum n => negb (PrimFloat.is_zero n || PrimFloat.is_nan n)
  | VStr s => negb (String.eqb s "")
  | VStringObj _ | VArr _ | VObj _ => true
  end.

(** [Array.isArray] *)
Definition isArray (v : value) : bool :=
  match v with
  | VArr _ => true
  | _ => false
  end.

(** ** Strings *)

Definition dquote : ascii := "034"%char.
Definition space : ascii := " "%char.
Definition hyphen : ascii := "-"%char.

(** Lower-casing of one code unit below 256: A-Z, and the Latin-1 capitals
    U+00C0..U+00DE without the multiplication sign U+00D7. *)
Definition lower_char (c : ascii) : ascii :=
  let n := nat_of_ascii c in
  if ((65 <=? n)%nat && (n <=? 90)%nat)
     || ((192 <=? n)%nat && (n <=? 222)%nat && negb (n =? 215)%nat)
  then ascii_of_nat (n + 32)
  else c.

Fixpoint map_chars (f : ascii -> ascii) (s : string) : string :=
  match s with
  | EmptyString => EmptyString
  | String c s' => String (f c) (map_chars f s')
  end.

(** [String.prototype.toLowerCase] *)
Definition toLowerCase (s : string) : string := map_chars lower_char s.

(** [String.prototype.split] with a one-character separator: the pieces
    between the separators, the empty string giving one empty piece. *)
Fixpoint split (sep : ascii) (s : string) : list string :=
  match s with
  | EmptyString => [EmptyString]
  | String c s' =>
      if Ascii.eqb c sep then EmptyString :: split sep s'
      else match split sep s' with
           | [] => [String c EmptyString]
           | w :: ws => String c w :: ws
           end
  end.

(** [Array.prototype.join] on an array of strings *)
Fixpoint join (sep : string) (ws : list string) : string :=
  match ws with
  | [] => EmptyString
  | [w] => w
  | w :: rest => w +:+ sep +:+ join sep rest
  end.

(** *** Regular expressions of the shape [pre(group)post]

    Each atom matches one character; the pattern matches at the start of the
    subject only.  [exec] yields the matched text and the captured group. *)

Inductive atom : Type :=
| Lit (c : ascii)
| Range (lo hi : ascii).

Record regex : Type := { re_pre : list atom; re_group : list atom; re_post : list atom }.

Definition atom_matches (a : atom) (c : ascii) : bool :=
  match a with
  | Lit c' => Ascii.eqb c c'
  | Range lo hi =>
      (nat_of_ascii lo <=? nat_of_ascii c)%nat && (nat_of_ascii c <=? nat_of_ascii hi)%nat
  end.

Fixpoint match_atoms (atoms : list atom) (s : string) : option (string * string) :=
  match atoms with
  | [] => Some (EmptyString, s)
  | a :: atoms' =>
      match s with
      | EmptyString => None
      | String c s' =>
          if atom_matches a c then
            match match_atoms atoms' s' with
            | Some (m, rest) => Some (String c m, rest)
            | None => None
            end
          else None
      end
  end.

Definition exec (re : regex) (s : string) : option (string * string) :=
  match match_atoms (re_pre re) s with
  | None => None
  | Some (m1, s1) =>
      match match_atoms (re_group re) s1 with
      | None => None
      | Some (p1, s2) =>
          match match_atoms (re_post re) s2 with
          | None => None
          | Some (m3, _) => Some (m1 +:+ p1 +:+ m3, p1)
          end
      end
  end.

(** [String.prototype.replace] with a global pattern and a replacer function
    [fn(m, p1)]: the subject is scanned from the left; where the pattern
    matches, the replacer's result is emitted and the matched characters are
    skipped ([skip] counts the ones still to pass over); elsewhere the
    character is copied.  The patterns of this file never match the empty
    string. *)
Fixpoint replace_from (re : regex) (fn : string -> string -> string)
    (skip : nat) (s : string) : string :=
  match s with
  | EmptyString => EmptyString
  | String c s' =>
      match skip with
      | S k => replace_from re fn k s'
      | O =>
          match exec re s with
          | Some (m, p1) => fn m p1 +:+ replace_from re fn (String.length m - 1) s'
          | None => String c (replace_from re fn 0 s')
          end
      end
  end.

Definition replace (re : regex) (fn : string -> string -> string) (s : string) : string :=
  replace_from re fn 0 s.

Definition is_Some_b {A : Type} (o : option A) : bool :=
  match o with
  | Some _ => true
  | None => false
  end.

(** Does the pattern match somewhere in the subject? *)
Fixpoint occurs (re : regex) (s : string) : bool :=
  match s with
  | EmptyString => false
  | String _ s' => is_Some_b (exec re s) || occurs re s'
  end.

(** No atom after the first one accepts the character [<]: a match cannot
    run into a following text that starts with it. *)
Definition rejects_lt (a : atom) : bool := negb (atom_matches a "<").

Definition tail_rejects_lt (r : regex) : bool :=
  match re_pre r with
  | [] => false
  | _ :: pre' => forallb rejects_lt pre' && forallb rejects_lt (re_group r)
                 && forallb rejects_lt (re_post r)
  end.

(** Ends of text at which the scan can be cut. *)
Definition cut_point (y : string) : Prop := y = "" \/ exists y', y = String "<" y'.

(** ** The normalizers (lines 8-31) *)

(** [normalizeSubtext]: wrap what is not an array in a one-element array. *)
Definition normalizeSubtext (subtext : value) : value :=
  if negb (isArray subtext) then VArr [subtext] else subtext.

(** The method call [key.toLowerCase()]: a string and a [String] object
    have the method, which returns a string; on [null] and [undefined] the
    property read throws, on any other data value the property is not a
    function. *)
Definition call_toLowerCase (key : value) : result string :=
  match key with
  | VStr s | VStringObj s => Ok (toLowerCase s)
  | VUndefined | VNull => Throw (TypeError "Cannot read properties of null or undefined")
  | _ => Throw (TypeError "key.toLowerCase is not a function")
  end.

(** [normalizeSlug]: [String(key.toLowerCase()).split(' ').join('-')] *)
Definition normalizeSlug (key : value) : result string :=
  match call_toLowerCase key with
  | Ok lowered => Ok (join "-" (split space lowered))
  | Throw e => Throw e
  end.

(** The two patterns of [normalizeTextLayout]: [/<(h[1-6])>/g] and
    [/<\/(h[1-6])>/g]. *)
Definition re_open : regex :=
  {| re_pre := [Lit "<"]; re_group := [Lit "h"; Range "1" "6"]; re_post := [Lit ">"] |}.

Definition re_close : regex :=
  {| re_pre := [Lit "<"; Lit "/"]; re_group := [Lit "h"; Range "1" "6"]; re_post := [Lit ">"] |}.

(** The replacers: the template [<div class="${p1}">] and the text [</div>]. *)
Definition fn_open (m p1 : string) : string :=
  "<div class=" +:+ String dquote p1 +:+ String dquote ">".

Definition fn_close (m p1 : string) : string := "</div>".

(** The method call [html.replace(...)]: a string and a [String] object
    have the method, which returns a string; on [null] and [undefined] the
    property read throws, on any other data value the property is not a
    function. *)
Definition normalizeTextLayout (html : value) : result string :=
  match html with
  | VStr s | VStringObj s => Ok (replace re_close fn_close (replace re_open fn_open s))
  | VUndefined | VNull => Throw (TypeError "Cannot read properties of null or undefined")
  | _ => Throw (TypeError "html.replace is not a function")
  end.

Definition is_level (d : ascii) : bool := atom_matches (Range "1" "6") d.

(** The text form of [normalizeTextLayout], on strings. *)
Definition rewrite_headings (s : string) : string :=
  replace re_close fn_close (replace re_open fn_open s).

(** ** Optional text props and class objects *)

(** A text prop as the data model has it: left out ([undefined]), [null],
    or a string. *)
Inductive prop : Type :=
| PUndefined
| PNull
| PStr (s : string).

(** Truthiness, as [if (x)] and [!x] test it. *)
Definition truthy (x : prop) : bool :=
  match x with
  | PStr s => negb (String.eqb s "")
  | _ => false
  end.

(** A default parameter value [x = d]: used when the argument is
    [undefined]. *)
Definition default_param (d : prop) (x : prop) : prop :=
  match x with
  | PUndefined => d
  | _ => x
  end.

(** The string form of a prop inside a template literal. *)
Definition template (x : prop) : string :=
  match x with
  | PUndefined => "undefined"
  | PNull => "null"
  | PStr s => s
  end.

(** Strict inequality [x !== 'lit'] against a string literal. *)
Definition strict_ne (x : prop) (lit : string) : bool :=
  match x with
  | PStr s => negb (String.eqb s lit)
  | _ => true
  end.

(** A class object: the keys of an object in insertion order, each with
    its flag.  [set_class] is the assignment [classes[k] = b]. *)
Fixpoint set_class (k : string) (b : bool) (o : list (string * bool)) : list (string * bool) :=
  match o with
  | [] => [(k, b)]
  | (k', b') :: rest =>
      if String.eqb k k' then (k', b) :: rest else (k', b') :: set_class k b rest
  end.

(** The keys whose flag is set, in insertion order. *)
Definition class_names (o : list (string * bool)) : list string :=
  map fst (filter (fun kb => snd kb = true) o).

(** [classNames(classes)] of the class-name joiner. *)
Definition classNames (o : list (string * bool)) : string := join " " (class_names o).

(** The class-presence set of a class object. *)
Definition class_set (o : list (string * bool)) : gset string := list_to_set (class_names o).

(** *** [Button] (lines 167-175) and [Icon] (lines 187-196): the classes *)

Definition Button_classes (mainStyle subStyle : prop) : list (string * bool) :=
  let mainStyle := default_param (PStr "fill") mainStyle in
  let subStyle := default_param PNull subStyle in
  let classes :=
    set_class ("btn--" +:+ template mainStyle) true (set_class "btn" true []) in
  if truthy subStyle
  then set_class ("btn--" +:+ template mainStyle +:+ "--" +:+ template subStyle) true classes
  else classes.

Definition Icon_classes (mainStyle subStyle : prop) : list (string * bool) :=
  let mainStyle := default_param (PStr "inline") mainStyle in
  let subStyle := default_param PNull subStyle in
  let classes :=
    set_class ("icon--" +:+ template mainStyle) true (set_class "icon" true []) in
  if truthy subStyle
  then set_class ("icon--" +:+ template mainStyle +:+ "--" +:+ template subStyle) true classes
  else classes.


(** ** View nodes *)

Section Views.

(** The functions of the icon library, by identity, and the props passed
    through to them are the icon library's. *)
Context {Comp Props : Type}.

(** What a property of the namespace object [Icons] holds: a function (an
    icon component, or a function that the object inherits, such as
    [constructor] and [toString]) or data (such as the flag [__esModule]
    that a bundler sets on the object). *)
Inductive member : Type :=
| Fn (c : Comp)
| Datum (v : value).

(** [!m] is false for a function, and follows [ToBoolean] for data. *)
Definition member_truthy (m : member) : bool :=
  match m with
  | Fn _ => true
  | Datum v => to_boolean v
  end.

(** The namespace object [Icons] of [import * as Icons] as a property read
    sees it: the icon components that the library exports, by name, and the
    other properties that a read finds on the object or along its
    prototype chain. *)
Record namespace : Type := { exports : gmap string Comp; others : gmap string member }.

(** The property read [Icons[name]]; [None] is [undefined]. *)
Definition read_member (Icons : namespace) (name : string) : option member :=
  match exports Icons !! name with
  | Some c => Some (Fn c)
  | None => others Icons !! name
  end.

(** A view node; the type of a component element is the value that was
    read. *)
Inductive vnode : Type :=
| VNothing
| VText (s : string)
| VInnerHtml (html : value)
| VElem (tag : string) (className : option string) (children : list vnode)
| VComp (c : member) (props : Props).

(** [Icon] (lines 187-213) *)
Definition Icon (Icons : namespace) (name : string)
    (mainStyle subStyle : prop) (props : Props) : vnode :=
  let Component := read_member Icons name in
  let classes := Icon_classes mainStyle subStyle in
  match Component with
  | None => VNothing
  | Some m =>
      if negb (member_truthy m) then VNothing
      else if strict_ne (default_param (PStr "inline") mainStyle) "inline"
      then VElem "div" (Some (classNames classes)) [VComp m props]
      else VComp m props
  end.

(** The content data of a section (the fields [Latest] reads). *)
Record ContentBlock : Type := { headline : string; subtext : value; label : prop }.

(** The items of an array value; [.map] is only called on the result of
    [normalizeSubtext]. *)
Definition items_of (v : value) : list value :=
  match v with
  | VArr items => items
  | _ => []
  end.

(** [Latest] (lines 106-131) *)
Definition Latest_classes (data : ContentBlock) : list (string * bool) :=
  set_class "bg-pink" true
    (set_class "pad" true
       (set_class ("latest--" +:+ template (label data)) true
          (set_class "latest" true []))).

Definition Latest (data : ContentBlock) : vnode :=
  let classes := Latest_classes data in
  VElem "section" (Some (classNames classes))
    [VElem "div" (Some "wrap latest__wrap")
       [VElem "div" (Some "latest__headline") [VElem "h2" None [VText (headline data)]];
        VElem "div" (Some "latest__subtext")
          [VElem "h3" (Some "h5")
             (map (fun subtext => VElem "div" None [VInnerHtml subtext])
                (items_of (normalizeSubtext (subtext data))))]]].

End Views.

Arguments vnode : clear implicits.
Arguments member : clear implicits.
Arguments namespace : clear implicits.

(** ** Elements with attributes: [Button] and [Hero] *)

(** An element tree with attributes: a text prop or a data value used as a
    child, a host element, and the routing link around its child. *)
Inductive element : Type :=
| EChild (p : prop)
| EValue (v : value)
| EHost (tag : string) (attrs : list (string * prop)) (children : list element)
| ELink (href : prop) (child : element).

(** The assignment [attrs[k] = v] on an attribute object: an existing key
    keeps its place. *)
Fixpoint set_attr (k : string) (v : prop) (attrs : list (string * prop)) : list (string * prop) :=
  match attrs with
  | [] => [(k, v)]
  | (k', v') :: rest =>
      if String.eqb k k' then (k', v) :: rest else (k', v') :: set_attr k v rest
  end.

(** The read [attrs[k]]. *)
Fixpoint get_attr (k : string) (attrs : list (string * prop)) : prop :=
  match attrs with
  | [] => PUndefined
  | (k', v) :: rest => if String.eqb k k' then v else get_attr k rest
  end.

(** [Button] (lines 167-182): the other props are spread on the anchor
    before its [className] is set. *)
Definition Button (children : element) (href mainStyle subStyle : prop)
    (props : list (string * prop)) : element :=
  let classes := Button_classes mainStyle subStyle in
  ELink href (EHost "a" (set_attr "className" (PStr (classNames classes)) props) [children]).

(** The content data that [Hero] reads. *)
Record HeroData : Type :=
  { hero_headline : string; hero_subtext : value; cta : prop; url : prop }.

(** [Hero] (lines 133-164) *)
Definition Hero_classes (subStyle : prop) : list (string * bool) :=
  let classes := set_class "pad" true (set_class "hero" true []) in
  if truthy subStyle
  then set_class ("hero--" +:+ template subStyle) true classes
  else classes.

Definition Hero (data : HeroData) (subStyle : prop) : element :=
  let classes := Hero_classes subStyle in
  EHost "section" [("className", PStr (classNames classes))]
    [EHost "div" [("className", PStr "wrap hero__wrap")]
       [EHost "div" [("className", PStr "hero__headline")]
          [EHost "h1" [] [EChild (PStr (hero_headline data))]];
        EHost "div" [("className", PStr "hero__subtext")]
          [EHost "h2" [("className", PStr "h5")]
             (map (fun subtext => EHost "div" [] [EValue subtext])
                (items_of (normalizeSubtext (hero_subtext data))))];
        if truthy (cta data)
        then EHost "div" [("className", PStr "hero__cta")]
               [Button (EChild (cta data)) (url data) PUndefined PUndefined
                  [("target", PStr "_blank")]]
        else EChild (cta data)]].

(** ** Observations on strings *)

(** Does the character occur in the string? *)
Fixpoint contains (c : ascii) (s : string) : bool :=
  match s with
  | EmptyString => false
  | String c' s' => Ascii.eqb c' c || contains c s'
  end.

(** How often the character occurs in the string. *)
Fixpoint count_char (c : ascii) (s : string) : nat :=
  match s with
  | EmptyString => 0
  | String c' s' => (if Ascii.eqb c' c then 1 else 0) + count_char c s'
  end.

(** Each space replaced by a hyphen. *)
Definition spaces_to_hyphens (s : string) : string :=
  map_chars (fun c => if Ascii.eqb c space then hyphen else c) s.

(** The pattern starts with the literal [<]. *)
Definition head_lt (r : regex) : bool :=
  match re_pre r with
  | Lit c :: _ => Ascii.eqb c "<"
  | _ => false
  end.

(** ** The media-query hook (lines 33-64) *)

Module Hook.

(** *** The platform: media query lists and their listeners *)

(** A callback function, by identity. *)
Definition listener : Type := nat.

(** A [MediaQueryList] object. *)
Record mql : Type := { mql_query : string; mql_listeners : list listener }.

(** A call of the hook on a media query list, as the platform sees it. *)
Inductive call : Type :=
| Add (m : nat) (l : listener)
| Remove (m : nat) (l : listener).

(** The platform: which queries match now, the media query lists created so
    far (an object's identity is its index), and the registration calls
    received, oldest first. *)
Record platform : Type :=
  { media : string -> bool; mqls : list mql; calls : list call }.

(** [window.matchMedia(q)]: a new media query list, without listeners. *)
Definition matchMedia (q : string) (p : platform) : nat * platform :=
  (length (mqls p),
   {| media := media p;
      mqls := mqls p ++ [{| mql_query := q; mql_listeners := [] |}];
      calls := calls p |}).

(** [mql.matches]: the current state of the list's query. *)
Definition matches (m : nat) (p : platform) : bool :=
  match mqls p !! m with
  | Some o => media p (mql_query o)
  | None => false
  end.

Definition add_listener (l : listener) (o : mql) : mql :=
  {| mql_query := mql_query o;
     mql_listeners :=
       if decide (l ∈ mql_listeners o) then mql_listeners o else mql_listeners o ++ [l] |}.

Definition remove_listener (l : listener) (o : mql) : mql :=
  {| mql_query := mql_query o; mql_listeners := filter (fun l' => l' ≠ l) (mql_listeners o) |}.

(** [mql.addEventListener('change', l)] *)
Definition addEventListener (m : nat) (l : listener) (p : platform) : platform :=
  {| media := media p; mqls := alter (add_listener l) m (mqls p);
     calls := calls p ++ [Add m l] |}.

(** [mql.removeEventListener('change', l)] *)
Definition removeEventListener (m : nat) (l : listener) (p : platform) : platform :=
  {| media := media p; mqls := alter (remove_listener l) m (mqls p);
     calls := calls p ++ [Remove m l] |}.

(** Is [l] registered on some media query list for query [q]? *)
Definition listens (l : listener) (q : string) (p : platform) : bool :=
  existsb (fun o => String.eqb (mql_query o) q && bool_decide (l ∈ mql_listeners o)) (mqls p).

(** Is [l] registered on any media query list? *)
Definition registered (l : listener) (p : platform) : bool :=
  existsb (fun o => bool_decide (l ∈ mql_listeners o)) (mqls p).

(** The registrations of a call log that no later call has removed. *)
Fixpoint outstanding (log : list call) (acc : list (nat * listener)) : list (nat * listener) :=
  match log with
  | [] => acc
  | Add m l :: rest => outstanding rest (acc ++ [(m, l)])
  | Remove m l :: rest => outstanding rest (filter (fun r => r ≠ (m, l)) acc)
  end.

(** *** One instance of the hook in a component *)

(** The hook's cells: the [useState] cell (empty before the first render),
    the memoised callback [handleMedia], the effect's changing dependency
    [mediaQuery] as of the last render, whether the effect is to run at the
    next commit, the media query list that the cleanup function returned by
    the last run of the effect closes over, and whether the component has
    been torn down. *)
Record fiber : Type :=
  { mobile : option bool;
    handleMedia : listener;
    deps : option string;
    pending : bool;
    cleanup : option nat;
    torn_down : bool }.

Definition new_fiber (h : listener) : fiber :=
  {| mobile := None; handleMedia := h; deps := None; pending := false;
     cleanup := None; torn_down := false |}.

(** [setMobile(b)] *)
Definition setMobile (b : bool) (f : fiber) : fiber :=
  {| mobile := Some b; handleMedia := handleMedia f; deps := deps f;
     pending := pending f; cleanup := cleanup f; torn_down := torn_down f |}.

Definition set_cleanup (c : option nat) (f : fiber) : fiber :=
  {| mobile := mobile f; handleMedia := handleMedia f; deps := deps f;
     pending := pending f; cleanup := c; torn_down := torn_down f |}.

Definition set_pending (b : bool) (f : fiber) : fiber :=
  {| mobile := mobile f; handleMedia := handleMedia f; deps := deps f;
     pending := b; cleanup := cleanup f; torn_down := torn_down f |}.

(** *** The render phase: a computation over the hook's cells *)

Definition hook (A : Type) : Type := fiber -> result A * fiber.

Definition ret {A : Type} (a : A) : hook A := fun f => (Ok a, f).

Definition throw {A : Type} (e : error) : hook A := fun f => (Throw e, f).

Definition bind {A B : Type} (c : hook A) (k : A -> hook B) : hook B :=
  fun f =>
    match c f with
    | (Ok a, f') => k a f'
    | (Throw e, f') => (Throw e, f')
    end.

Notation "x <- c ;; k" := (bind c (fun x => k))
  (at level 100, c at next level, right associativity).

(** [useState(init)]: the cell's value, initialised on the first render. *)
Definition useState (init : bool) : hook bool :=
  fun f =>
    match mobile f with
    | Some b => (Ok b, f)
    | None => (Ok init, setMobile init f)
    end.

(** [useEffect(effect, [handleMedia, setMobile, mediaQuery])]: the callback
    and the setter never change, so the effect is scheduled on the first
    render and when [mediaQuery] differs from the last render's. *)
Definition useEffect (mediaQuery : string) : hook unit :=
  fun f =>
    if decide (deps f = Some mediaQuery) then (Ok tt, f)
    else (Ok tt,
          {| mobile := mobile f; handleMedia := handleMedia f; deps := Some mediaQuery;
             pending := true; cleanup := cleanup f; torn_down := torn_down f |}).

Definition guard_message (mediaQuery : prop) : string :=
  "Jambonz UI " +:+ String dquote "useMatchMedia" +:+ String dquote " requires valid Media Query: "
  +:+ template mediaQuery +:+ " was passed.".

(** [useMatchMedia(mediaQuery = null)], the function body (lines 35-59). *)
Definition useMatchMedia (mediaQuery : prop) : hook bool :=
  let mediaQuery := default_param PNull mediaQuery in
  if negb (truthy mediaQuery) then throw (Error (guard_message mediaQuery))
  else
    mobile <- useState false ;;
    _ <- useEffect (template mediaQuery) ;;
    ret mobile.

(** [useMobileMedia] (lines 62-64) *)
Definition useMobileMedia : hook bool := useMatchMedia (PStr "(max-width: 896px)").

(** The effect's body (lines 47-55): a media query list for the query, the
    listener, the state set to the current match, and the cleanup. *)
Definition effect (mediaQuery : string) (f : fiber) (p : platform) : fiber * platform :=
  let '(m, p1) := matchMedia mediaQuery p in
  let p2 := addEventListener m (handleMedia f) p1 in
  let f1 := setMobile (matches m p2) f in
  (set_cleanup (Some m) f1, p2).

(** The cleanup function of the last run of the effect (lines 53-55). *)
Definition run_cleanup (f : fiber) (p : platform) : fiber * platform :=
  match cleanup f with
  | Some m => (set_cleanup None f, removeEventListener m (handleMedia f) p)
  | None => (f, p)
  end.

(** *** React's part *)

(** The commit after a render: a scheduled effect runs, after the cleanup
    of its previous run. *)
Definition commit (f : fiber) (p : platform) : fiber * platform :=
  if pending f then
    let '(f1, p1) := run_cleanup f p in
    match deps f1 with
    | Some q => effect q (set_pending false f1) p1
    | None => (set_pending false f1, p1)
    end
  else (f, p).

(** Tearing the component down: the cleanup runs. *)
Definition unmount (f : fiber) (p : platform) : fiber * platform :=
  let '(f1, p1) := run_cleanup f p in
  ({| mobile := mobile f1; handleMedia := handleMedia f1; deps := deps f1;
      pending := false; cleanup := cleanup f1; torn_down := true |}, p1).

(** One render of the component with the given query, and its commit; a
    render that throws is discarded and the component is torn down.  A
    component that has been torn down is not rendered again. *)
Definition render (mediaQuery : prop) (s : fiber * platform) : option (result bool) * (fiber * platform) :=
  let '(f, p) := s in
  if torn_down f then (None, s)
  else
    match useMatchMedia mediaQuery f with
    | (Ok b, f1) => (Some (Ok b), commit f1 p)
    | (Throw e, _) => (Some (Throw e), unmount f p)
    end.

(** A change event of the platform for query [q], reporting [b]: the query's
    state changes, and the event [e] with [e.matches = b] goes to the
    listeners of the media query lists for [q]; the hook's listener is
    [handleMedia], which calls [setMobile(e.matches)] (lines 42-44). *)
Definition change (q : string) (b : bool) (s : fiber * platform) : fiber * platform :=
  let '(f, p) := s in
  let p1 :=
    {| media := fun q' => if String.eqb q' q then b else media p q';
       mqls := mqls p; calls := calls p |} in
  if listens (handleMedia f) q p then (setMobile b f, p1) else (f, p1).

Inductive action : Type :=
| Render (mediaQuery : prop)
| Change (q : string) (b : bool)
| Unmount.

Definition step (s : fiber * platform) (a : action) : fiber * platform :=
  match a with
  | Render mediaQuery => snd (render mediaQuery s)
  | Change q b => change q b s
  | Unmount => unmount (fst s) (snd s)
  end.

Definition run (acts : list action) (s : fiber * platform) : fiber * platform :=
  fold_left step acts s.

(** The value a render returns. *)
Definition read (mediaQuery : prop) (s : fiber * platform) : option (result bool) :=
  fst (render mediaQuery s).

(** A platform on which no media query list exists yet. *)
Definition fresh_platform (mu : string -> bool) : platform :=
  {| media := mu; mqls := []; calls := [] |}.

(** The component before its first render. *)
Definition initial (h : listener) (mu : string -> bool) : fiber * platform :=
  (new_fiber h, fresh_platform mu).

(** Mounting: the first render and its commit. *)
Definition mount (mediaQuery : prop) (h : listener) (mu : string -> bool) : fiber * platform :=
  snd (render mediaQuery (initial h mu)).

(** *** The subscription invariant

    On a platform where only this hook registers listeners: with cleanup
    [c] pending for callback [h], the media query list of [c] carries [h]
    and no other list carries a listener, and the call log has exactly that
    registration outstanding. *)
Definition subscription (c : option nat) (h : listener) (p : platform) : Prop :=
  (forall i o, mqls p !! i = Some o ->
     mql_listeners o = if decide (c = Some i) then [h] else []) /\
  (forall m, c = Some m -> m < length (mqls p)) /\
  outstanding (calls p) [] = match c with Some m => [(m, h)] | None => [] end.

Definition settled (s : fiber * platform) : Prop :=
  subscription (cleanup (fst s)) (handleMedia (fst s)) (snd s) /\
  pending (fst s) = false /\
  (torn_down (fst s) = true -> cleanup (fst s) = None).

(** *** The state follows the platform

    While the component is mounted with query [q], the state cell holds the
    platform's current answer for [q], and the pending cleanup belongs to a
    media query list for [q]. *)
Definition in_sync (s : fiber * platform) : Prop :=
  torn_down (fst s) = false ->
  forall q, deps (fst s) = Some q ->
    q <> "" /\
    mobile (fst s) = Some (media (snd s) q) /\
    exists m o, cleanup (fst s) = Some m /\ mqls (snd s) !! m = Some o /\ mql_query o = q.

End Hook.

(** * Properties *)

(** ** Strings *)



Lemma split_cons (sep : ascii) (s : string) : exists w ws, split sep s = w :: ws.
Proof.
  destruct s as [|c s]; simpl; [now eauto |].
  destruct (Ascii.eqb c sep); [now eauto |].
  destruct (split sep s); eauto.
Qed.

Lemma join_cons_char (sep : string) (c : ascii) (w : string) (ws : list string) :
  join sep (String c w :: ws) = String c (join sep (w :: ws)).
Proof. destruct ws; reflexivity. Qed.

(** Splitting at a character and joining with another is replacing the one
    by the other, character by character. *)
Lemma join_split (a b : ascii) (s : string) :
  join (String b "") (split a s) = map_chars (fun c => if Ascii.eqb c a then b else c) s.
Proof.
  induction s as [|c s IH]; [reflexivity |].
  simpl. destruct (Ascii.eqb c a).
  - destruct (split_cons a s) as (w & ws & E). rewrite E in *.
    change (join (String b "") ("" :: w :: ws)) with (String b (join (String b "") (w :: ws))).
    now rewrite IH.
  - destruct (split_cons a s) as (w & ws & E). rewrite E in *.
    now rewrite join_cons_char, IH.
Qed.

(** ** Class objects *)

Lemma class_set_cons (k : string) (b : bool) (o : list (string * bool)) :
  class_set ((k, b) :: o) = (if b then {[ k ]} else ∅) ∪ class_set o.
Proof.
  unfold class_set, class_names. rewrite filter_cons. simpl.
  destruct b; simpl; [reflexivity | set_solver].
Qed.

(** Setting a class flag adds the class to the set, wherever the key sits. *)
Lemma class_set_set_class (k : string) (o : list (string * bool)) :
  class_set (set_class k true o) = {[ k ]} ∪ class_set o.
Proof.
  induction o as [|[k' b'] o IH]; simpl.
  - rewrite class_set_cons. reflexivity.
  - destruct (String.eqb_spec k k') as [->|Hne].
    + rewrite !class_set_cons. destruct b'; set_solver.
    + rewrite !class_set_cons, IH. set_solver.
Qed.


Lemma truthy_PStr (s : string) : s <> "" -> truthy (PStr s) = true.
Proof. intros H. simpl. now destruct (String.eqb_spec s ""). Qed.

(** An empty sub style counts as none: the third class is left out. *)
Lemma Button_classes_empty_subStyle (mainStyle : prop) :
  Button_classes mainStyle (PStr "") = Button_classes mainStyle PNull.
Proof. reflexivity. Qed.

(** ** Claims on the normalizers *)

(** C4: for an input [x] that is not a sequence, [normalizeSubtext x] is the
    one-element sequence holding exactly [x]; for a sequence it is the input
    itself; hence normalizing twice is normalizing once. *)
Theorem normalizeSubtext_wraps_or_keeps (x : value) :
  (isArray x = false -> normalizeSubtext x = VArr [x]) /\
  (isArray x = true -> normalizeSubtext x = x) /\
  normalizeSubtext (normalizeSubtext x) = normalizeSubtext x.
Proof.
  unfold normalizeSubtext.
  destruct (isArray x) eqn:E; simpl; repeat split; try discriminate; try reflexivity.
  now rewrite E.
Qed.

Lemma normalizeSubtext_wraps_or_keeps_witness :
  isArray (VStr "one paragraph") = false /\
  normalizeSubtext (VStr "one paragraph") = VArr [VStr "one paragraph"] /\
  isArray (VArr [VStr "a"; VStr "b"]) = true /\
  normalizeSubtext (VArr [VStr "a"; VStr "b"]) = VArr [VStr "a"; VStr "b"].
Proof.
  split; [reflexivity |].
  split; [apply (proj1 (normalizeSubtext_wraps_or_keeps (VStr "one paragraph"))); reflexivity |].
  split; [reflexivity |].
  apply (proj1 (proj2 (normalizeSubtext_wraps_or_keeps (VArr [VStr "a"; VStr "b"])))); reflexivity.
Defined.

(** C2, as stated, fails: [normalizeTextLayout(null)] throws a [TypeError]
    and returns nothing. *)
Lemma normalizeTextLayout_null_throws :
  (exists msg, normalizeTextLayout VNull = Throw (TypeError msg))
  /\ ~ returns (normalizeTextLayout VNull).
Proof.
  split; [eexists; reflexivity |]. intros [a H]. discriminate H.
Qed.

(** C2, amended: [normalizeSubtext] returns a sequence for every value;
    [normalizeSlug] and [normalizeTextLayout] return a string for every
    string, primitive or [String] object; [normalizeTextLayout] throws a
    [TypeError] for [null] and for [undefined]. *)
Theorem normalizers_total_on_their_domain (v : value) :
  (exists items, normalizeSubtext v = VArr items) /\
  (forall s, v = VStr s \/ v = VStringObj s ->
     returns (normalizeSlug v) /\ returns (normalizeTextLayout v)) /\
  (v = VNull \/ v = VUndefined -> exists msg, normalizeTextLayout v = Throw (TypeError msg)).
Proof.
  split; [| split].
  - unfold normalizeSubtext. destruct v; simpl; eauto.
  - intros s [-> | ->]; split; eexists; reflexivity.
  - intros [-> | ->]; eexists; reflexivity.
Qed.

Lemma normalizers_total_on_their_domain_witness :
  returns (normalizeSlug (VStr "Hello World")) /\
  returns (normalizeTextLayout (VStringObj "<h1>Hello World</h1>")) /\
  (exists msg, normalizeTextLayout VUndefined = Throw (TypeError msg)).
Proof.
  pose proof (normalizers_total_on_their_domain (VStr "Hello World")) as (_ & H & _).
  pose proof (normalizers_total_on_their_domain (VStringObj "<h1>Hello World</h1>"))
    as (_ & H' & _).
  pose proof (normalizers_total_on_their_domain VUndefined) as (_ & _ & K).
  destruct (H "Hello World" (or_introl eq_refl)) as [H1 _].
  destruct (H' "<h1>Hello World</h1>" (or_intror eq_refl)) as [_ H2].
  split; [exact H1 |]. split; [exact H2 |].
  apply K. now right.
Defined.

(** C9: on a string, [normalizeSlug] is the key lower-cased with each space
    replaced by a hyphen; so for the three sample keys. *)
Theorem normalizeSlug_lowercase_hyphens (key : string) :
  normalizeSlug (VStr key)
  = Ok (map_chars (fun c => if Ascii.eqb c space then hyphen else c) (toLowerCase key))
  /\ normalizeSlug (VStr "Hello World") = Ok "hello-world"
  /\ normalizeSlug (VStr "A B C") = Ok "a-b-c"
  /\ normalizeSlug (VStr "") = Ok "".
Proof.
  split; [| repeat split].
  unfold normalizeSlug. simpl. f_equal. apply (join_split space hyphen).
Qed.

(** ** Claims on the components *)



(** [Icon] renders nothing exactly when the read [Icons[name]] finds
    nothing or something falsy; for an exported icon it renders the
    component, inline or inside the styled container. *)
Lemma Icon_renders_what_the_read_finds {Comp Props : Type}
    (Icons : namespace Comp) (name : string) (mainStyle subStyle : prop) (props : Props) :
  (Icon Icons name mainStyle subStyle props = VNothing <->
   read_member Icons name = None \/
   exists m, read_member Icons name = Some m /\ member_truthy m = false) /\
  (forall c, exports Icons !! name = Some c ->
     Icon Icons name mainStyle subStyle props = VComp (Fn c) props \/
     Icon Icons name mainStyle subStyle props
     = VElem "div" (Some (classNames (Icon_classes mainStyle subStyle))) [VComp (Fn c) props]).
Proof.
  split.
  - unfold Icon. destruct (read_member Icons name) as [m|] eqn:E.
    + destruct (member_truthy m) eqn:Em; simpl.
      * split.
        -- destruct (strict_ne _ _); discriminate.
        -- intros [H | (m' & H & H')]; [discriminate | congruence].
      * split; [eauto | reflexivity].
    + split; auto.
  - intros c H. unfold Icon, read_member. rewrite H. simpl.
    destruct (strict_ne _ _); auto.
Qed.

(** C7 fails on the code for a name that is no icon but that the read
    [Icons[name]] finds on the namespace object all the same: [constructor]
    is inherited and [__esModule] is set by the bundler, both are truthy,
    and [Icon] returns an element with that value as its type, where the
    claim has no output.  A name that the read does not find renders
    nothing. *)
Theorem Icon_inherited_name_renders :
  let Icons : namespace nat :=
    {| exports := {[ "Menu" := 1%nat; "X" := 2%nat ]};
       others := {[ "constructor" := Fn 0%nat; "__esModule" := Datum (VBool true) ]} |} in
  exports Icons !! "constructor" = None /\
  Icon Icons "constructor" PUndefined PUndefined tt = VComp (Fn 0%nat) tt /\
  Icon Icons "constructor" (PStr "fill") PNull tt
  = VElem "div" (Some "icon icon--fill") [VComp (Fn 0%nat) tt] /\
  exports Icons !! "__esModule" = None /\
  Icon Icons "__esModule" PUndefined PUndefined tt = VComp (Datum (VBool true)) tt /\
  Icon Icons "Nope" (PStr "fill") (PStr "small") tt = VNothing /\
  Icon Icons "Menu" PUndefined PUndefined tt = VComp (Fn 1%nat) tt.
Proof. intros Icons. repeat split. Qed.

(** C10: the classes of the section of [Latest] always hold [latest--]
    followed by the string form of [data.label]: the label itself when it
    is a string, [null] when it is [null], and [undefined] when the label
    is absent; the section's [className] is made from these classes. *)
Theorem Latest_label_class {Comp Props : Type} (data : ContentBlock) :
  (forall s, label data = PStr s ->
     ("latest--" +:+ s) ∈ class_set (Latest_classes data)) /\
  (label data = PNull -> "latest--null" ∈ class_set (Latest_classes data)) /\
  (label data = PUndefined -> "latest--undefined" ∈ class_set (Latest_classes data)) /\
  (exists children,
     Latest (Comp := Comp) (Props := Props) data
     = VElem "section" (Some (classNames (Latest_classes data))) children).
Proof.
  assert (H : ("latest--" +:+ template (label data)) ∈ class_set (Latest_classes data)).
  { unfold Latest_classes. rewrite !class_set_set_class. set_solver. }
  split; [| split; [| split]].
  - intros s E. rewrite E in H. exact H.
  - intros E. rewrite E in H. exact H.
  - intros E. rewrite E in H. exact H.
  - eexists. reflexivity.
Qed.

Lemma Latest_label_class_witness :
  let absent := {| headline := "News"; subtext := VStr "One line"; label := PUndefined |} in
  let null := {| headline := "News"; subtext := VStr "One line"; label := PNull |} in
  let given := {| headline := "News"; subtext := VStr "One line"; label := PStr "release" |} in
  label absent = PUndefined /\ label null = PNull /\ label given = PStr "release" /\
  "latest--undefined" ∈ class_set (Latest_classes absent) /\
  "latest--null" ∈ class_set (Latest_classes null) /\
  "latest--release" ∈ class_set (Latest_classes given) /\
  classNames (Latest_classes absent) = "latest latest--undefined pad bg-pink".
Proof.
  intros absent null given.
  pose proof (Latest_label_class (Comp := unit) (Props := unit) absent) as (_ & _ & Ha & _).
  pose proof (Latest_label_class (Comp := unit) (Props := unit) null) as (_ & Hn & _).
  pose proof (Latest_label_class (Comp := unit) (Props := unit) given) as (Hg & _).
  split; [reflexivity |]. split; [reflexivity |]. split; [reflexivity |].
  split; [apply Ha; reflexivity |].
  split; [apply Hn; reflexivity |].
  split; [apply (Hg "release"); reflexivity | reflexivity].
Defined.

Section Scanning.

Variable re : regex.
Variable fn : string -> string -> string.


Lemma match_atoms_app (atoms : list atom) (x y m r : string) :
  match_atoms atoms x = Some (m, r) -> match_atoms atoms (x +:+ y) = Some (m, r +:+ y).
Proof.
  revert x m r. induction atoms as [|a atoms IH]; intros x m r; simpl.
  - intros [= <- <-]. reflexivity.
  - destruct x as [|c x]; [discriminate |]. simpl.
    destruct (atom_matches a c); [| discriminate].
    destruct (match_atoms atoms x) as [[m' r']|] eqn:E; [| discriminate].
    intros [= <- <-]. now rewrite (IH _ _ _ E).
Qed.

Lemma match_atoms_app_none (atoms : list atom) (x y : string) :
  forallb rejects_lt atoms = true -> cut_point y ->
  match_atoms atoms x = None -> match_atoms atoms (x +:+ y) = None.
Proof.
  revert x. induction atoms as [|a atoms IH]; intros x Hrej Hy; simpl; [discriminate |].
  simpl in Hrej. apply andb_prop in Hrej as [Ha Hrej].
  destruct x as [|c x]; simpl.
  - intros _. destruct Hy as [-> | [y' ->]]; [reflexivity |].
    unfold rejects_lt in Ha. apply negb_true_iff in Ha. now rewrite Ha.
  - destruct (atom_matches a c); [| reflexivity].
    destruct (match_atoms atoms x) as [[m' r']|] eqn:E; [discriminate |].
    intros _. now rewrite (IH x Hrej Hy E).
Qed.

Lemma exec_app (x y : string) (r : string * string) :
  exec re x = Some r -> exec re (x +:+ y) = Some r.
Proof.
  unfold exec.
  destruct (match_atoms (re_pre re) x) as [[m1 s1]|] eqn:E1; [| discriminate].
  rewrite (match_atoms_app _ _ y _ _ E1).
  destruct (match_atoms (re_group re) s1) as [[p1 s2]|] eqn:E2; [| discriminate].
  rewrite (match_atoms_app _ _ y _ _ E2).
  destruct (match_atoms (re_post re) s2) as [[m3 s3]|] eqn:E3; [| discriminate].
  now rewrite (match_atoms_app _ _ y _ _ E3).
Qed.


Hypothesis re_local : tail_rejects_lt re = true.

Lemma exec_app_none (c : ascii) (x y : string) :
  cut_point y -> exec re (String c x) = None -> exec re (String c x +:+ y) = None.
Proof.
  intros Hy. unfold tail_rejects_lt in re_local. unfold exec.
  destruct (re_pre re) as [|a pre']; [discriminate |].
  apply andb_prop in re_local as [H12 H3]. apply andb_prop in H12 as [H1 H2].
  simpl. destruct (atom_matches a c); [| reflexivity].
  destruct (match_atoms pre' x) as [[m1 s1]|] eqn:E1.
  2:{ intros _. now rewrite (match_atoms_app_none _ _ _ H1 Hy E1). }
  rewrite (match_atoms_app _ _ y _ _ E1).
  destruct (match_atoms (re_group re) s1) as [[p1 s2]|] eqn:E2.
  2:{ intros _. now rewrite (match_atoms_app_none _ _ _ H2 Hy E2). }
  rewrite (match_atoms_app _ _ y _ _ E2).
  destruct (match_atoms (re_post re) s2) as [[m3 s3]|] eqn:E3; [discriminate |].
  intros _. now rewrite (match_atoms_app_none _ _ _ H3 Hy E3).
Qed.



End Scanning.

(** A text in which the pattern does not occur is left as it is. *)
Lemma replace_no_occurrence (re : regex) (fn : string -> string -> string) (s : string) :
  occurs re s = false -> replace re fn s = s.
Proof.
  unfold replace. induction s as [|c s IH]; [reflexivity |].
  cbn [occurs replace_from]. intros H. apply orb_false_elim in H as [H1 H2].
  destruct (exec re (String c s)); [discriminate |]. now rewrite IH.
Qed.

Lemma level_cases (d : ascii) :
  is_level d = true ->
  d = "1"%char \/ d = "2"%char \/ d = "3"%char \/ d = "4"%char \/ d = "5"%char \/ d = "6"%char.
Proof.
  destruct d as [[] [] [] [] [] [] [] []]; vm_compute; intros H; try discriminate H; auto 10.
Qed.

Ltac each_level d H :=
  destruct (level_cases d H) as [-> | [-> | [-> | [-> | [-> | ->]]]]].








Lemma re_open_local : tail_rejects_lt re_open = true.
Proof. reflexivity. Qed.

Lemma re_close_local : tail_rejects_lt re_close = true.
Proof. reflexivity. Qed.



Lemma rewrite_headings_plain (s : string) :
  occurs re_open s = false -> occurs re_close s = false -> rewrite_headings s = s.
Proof.
  intros H1 H2. unfold rewrite_headings.
  rewrite (replace_no_occurrence re_open) by exact H1.
  now apply replace_no_occurrence.
Qed.



(** ** The hook *)

Module HookFacts.

Import Hook.

Lemma outstanding_app (l1 l2 : list call) (acc : list (nat * listener)) :
  outstanding (l1 ++ l2) acc = outstanding l2 (outstanding l1 acc).
Proof.
  revert acc. induction l1 as [|[m l|m l] l1 IH]; intros acc; simpl; auto.
Qed.

Lemma subscription_initial (h : listener) (mu : string -> bool) :
  subscription None h (fresh_platform mu).
Proof.
  split; [| split]; simpl.
  - intros i o H. now rewrite lookup_nil in H.
  - discriminate.
  - reflexivity.
Qed.

(** The cleanup removes the one registration there is. *)
Lemma subscription_cleanup (f : fiber) (p : platform) :
  subscription (cleanup f) (handleMedia f) p ->
  subscription None (handleMedia f) (snd (run_cleanup f p))
  /\ cleanup (fst (run_cleanup f p)) = None
  /\ media (snd (run_cleanup f p)) = media p
  /\ fst (run_cleanup f p) = set_cleanup None f.
Proof.
  intros (Hl & Hm & Ho). unfold run_cleanup.
  destruct (cleanup f) as [m|] eqn:E; simpl.
  2:{ repeat split; auto. destruct f; simpl in *; now subst. }
  repeat split; auto; simpl.
  - intros i o. destruct (decide (i = m)) as [->|Hne].
    + rewrite list_lookup_alter_eq. destruct (mqls p !! m) as [o'|] eqn:E'; [| discriminate].
      intros [= <-]. simpl. rewrite (Hl _ _ E'), decide_True by reflexivity.
      rewrite filter_cons, decide_False by tauto. reflexivity.
    + rewrite list_lookup_alter_ne by congruence. intros E'.
      rewrite (Hl _ _ E'), decide_False by congruence. reflexivity.
  - discriminate.
  - rewrite outstanding_app, Ho. simpl.
    rewrite filter_cons, decide_False by tauto. reflexivity.
Qed.

(** The effect registers the callback on a new media query list. *)
Lemma subscription_effect (q : string) (f : fiber) (p : platform) :
  cleanup f = None ->
  subscription None (handleMedia f) p ->
  subscription (cleanup (fst (effect q f p))) (handleMedia f) (snd (effect q f p))
  /\ cleanup (fst (effect q f p)) = Some (List.length (mqls p))
  /\ mobile (fst (effect q f p)) = Some (media p q).
Proof.
  intros Hc (Hl & Hm & Ho). unfold effect, matchMedia, addEventListener, matches. simpl.
  assert (Ha : alter (add_listener (handleMedia f)) (List.length (mqls p))
                 (mqls p ++ [{| mql_query := q; mql_listeners := [] |}])%list
               = (mqls p ++ [{| mql_query := q; mql_listeners := [handleMedia f] |}])%list).
  { rewrite <- (Nat.add_0_r (List.length (mqls p))) at 1. now rewrite alter_app_r. }
  rewrite Ha. split; [| split]; [split; [| split] | reflexivity |]; simpl.
  - intros i o Hi. destruct (decide (i < List.length (mqls p))) as [Hlt|Hge].
    + rewrite lookup_app_l in Hi by exact Hlt.
      rewrite (Hl _ _ Hi). rewrite !decide_False; [reflexivity | | discriminate].
      intros [= E]. lia.
    + rewrite lookup_app_r in Hi by lia.
      destruct (i - List.length (mqls p)) as [|k] eqn:Ek; [| now rewrite lookup_cons, lookup_nil in Hi].
      injection Hi as <-. simpl. rewrite decide_True; [reflexivity |]. f_equal. lia.
  - intros m [= <-]. rewrite length_app. simpl. lia.
  - rewrite outstanding_app, Ho. reflexivity.
  - rewrite lookup_app_r by lia. now rewrite Nat.sub_diag.
Qed.

Lemma query_cases (mediaQuery : prop) :
  (mediaQuery = PUndefined \/ mediaQuery = PNull \/ mediaQuery = PStr "")
  \/ (exists q, mediaQuery = PStr q /\ q <> "").
Proof.
  destruct mediaQuery as [| |q]; auto.
  destruct (String.eqb_spec q "") as [->|Hne]; eauto.
Qed.

(** The guard: no cell is touched when the query is missing. *)
Lemma useMatchMedia_missing (mediaQuery : prop) (f : fiber) :
  mediaQuery = PUndefined \/ mediaQuery = PNull \/ mediaQuery = PStr "" ->
  useMatchMedia mediaQuery f
  = (Throw (Error (guard_message (default_param PNull mediaQuery))), f).
Proof. intros [-> | [-> | ->]]; reflexivity. Qed.

(** A render with a query string: the state cell is read (and initialised
    on the first render), the effect is scheduled when the query differs
    from the last render's. *)
Lemma useMatchMedia_query (q : string) (f : fiber) :
  q <> "" ->
  useMatchMedia (PStr q) f
  = (Ok (default false (mobile f)),
     {| mobile := Some (default false (mobile f)); handleMedia := handleMedia f;
        deps := Some q;
        pending := if decide (deps f = Some q) then pending f else true;
        cleanup := cleanup f; torn_down := torn_down f |}).
Proof.
  intros Hq. unfold useMatchMedia, default_param.
  rewrite (truthy_PStr _ Hq). cbn [negb].
  unfold bind, useState, useEffect, ret, template.
  destruct f as [mob h d pe cl td]; simpl.
  destruct mob as [b|]; simpl; destruct (decide (d = Some q)) as [->|Hne]; reflexivity.
Qed.

Lemma settled_unmount (f : fiber) (p : platform) :
  subscription (cleanup f) (handleMedia f) p ->
  settled (unmount f p)
  /\ handleMedia (fst (unmount f p)) = handleMedia f
  /\ torn_down (fst (unmount f p)) = true
  /\ mobile (fst (unmount f p)) = mobile f.
Proof.
  intros H. destruct (subscription_cleanup f p H) as (Hs & Hc & _ & Hf).
  unfold unmount. destruct (run_cleanup f p) as [f1 p1]. simpl in *. subst f1.
  unfold settled. simpl. auto.
Qed.

Lemma settled_render (mediaQuery : prop) (s : fiber * platform) :
  settled s ->
  settled (snd (render mediaQuery s))
  /\ handleMedia (fst (snd (render mediaQuery s))) = handleMedia (fst s).
Proof.
  destruct s as [f p]. intros (Hs & Hp & Ht). simpl in Hs, Hp, Ht. unfold render.
  destruct (torn_down f) eqn:Etd.
  { simpl. unfold settled. simpl. auto. }
  destruct (query_cases mediaQuery) as [Hmiss | (q & -> & Hq)].
  - rewrite (useMatchMedia_missing _ _ Hmiss). simpl.
    destruct (settled_unmount f p Hs) as (H1 & H2 & _). auto.
  - rewrite (useMatchMedia_query _ _ Hq). simpl. rewrite Hp.
    unfold commit. simpl.
    destruct (decide (deps f = Some q)) as [E|E].
    + split; [| reflexivity]. unfold settled. simpl. rewrite Etd.
      split; [exact Hs | split; [reflexivity | discriminate]].
    + set (f1 := {| mobile := _ |}).
      assert (Hs1 : subscription (cleanup f1) (handleMedia f1) p) by exact Hs.
      destruct (subscription_cleanup f1 p Hs1) as (Hs2 & Hc2 & _ & Hf2).
      destruct (run_cleanup f1 p) as [f2 p2]. simpl in Hs2, Hc2, Hf2. subst f2. simpl.
      set (f3 := set_pending false (set_cleanup None f1)).
      destruct (subscription_effect q f3 p2 eq_refl Hs2) as (Hs3 & Hc3 & _).
      split; [| reflexivity]. unfold settled. split; [exact Hs3 |]. split; [reflexivity |].
      simpl. rewrite Etd. discriminate.
Qed.

Lemma listens_registered (h : listener) (q : string) (p : platform) :
  registered h p = false -> listens h q p = false.
Proof.
  unfold registered, listens. induction (mqls p) as [|o os IH]; simpl; [reflexivity |].
  intros H. apply orb_false_elim in H as [H1 H2]. rewrite H1, andb_false_r. now apply IH.
Qed.

Lemma subscription_none_registered (h : listener) (p : platform) :
  subscription None h p -> registered h p = false.
Proof.
  intros (Hl & _ & _). unfold registered.
  assert (H : forall o, o ∈ mqls p -> mql_listeners o = []).
  { intros o Ho. apply list_elem_of_lookup in Ho as [i Hi]. apply (Hl _ _ Hi). }
  clear Hl. induction (mqls p) as [|o os IH]; simpl; [reflexivity |].
  rewrite (H o) by (left). simpl.
  apply IH. intros o' Ho'. apply H. now right.
Qed.

Lemma settled_change (q : string) (b : bool) (s : fiber * platform) :
  settled s ->
  settled (change q b s) /\ handleMedia (fst (change q b s)) = handleMedia (fst s).
Proof.
  destruct s as [f p]. intros (Hs & Hp & Ht). simpl in Hs, Hp, Ht. unfold change.
  destruct (listens (handleMedia f) q p); unfold settled; simpl; auto.
Qed.

Lemma settled_step (a : action) (s : fiber * platform) :
  settled s ->
  settled (step s a) /\ handleMedia (fst (step s a)) = handleMedia (fst s).
Proof.
  intros H. destruct a as [mq|q b|]; simpl.
  - now apply settled_render.
  - now apply settled_change.
  - destruct H as (Hs & _ & _). destruct (settled_unmount _ _ Hs) as (H1 & H2 & _). auto.
Qed.

Lemma settled_run (acts : list action) (s : fiber * platform) :
  settled s ->
  settled (run acts s) /\ handleMedia (fst (run acts s)) = handleMedia (fst s).
Proof.
  unfold run. revert s. induction acts as [|a acts IH]; intros s H; simpl; [auto |].
  destruct (settled_step a s H) as [H1 H2].
  destruct (IH _ H1) as [H3 H4]. split; [exact H3 | congruence].
Qed.

Lemma settled_initial (h : listener) (mu : string -> bool) : settled (initial h mu).
Proof.
  unfold settled, initial. simpl. split; [apply subscription_initial | auto].
Qed.

Lemma run_app (a1 a2 : list action) (s : fiber * platform) :
  run (a1 ++ a2) s = run a2 (run a1 s).
Proof. unfold run. apply fold_left_app. Qed.

(** A component that has been torn down keeps its cells, whatever comes. *)
Lemma torn_down_frozen (later : list action) (s : fiber * platform) :
  settled s -> torn_down (fst s) = true -> fst (run later s) = fst s.
Proof.
  revert s. induction later as [|a later IH]; intros s H Htd; [reflexivity |].
  change (run (a :: later) s) with (run later (step s a)).
  assert (Hstep : fst (step s a) = fst s).
  { destruct s as [f p]. destruct H as (Hs & Hp & Ht). simpl in *.
    specialize (Ht Htd). rewrite Ht in Hs.
    destruct a as [mq|q b|]; simpl.
    - unfold render. now rewrite Htd.
    - rewrite (listens_registered _ q _ (subscription_none_registered _ _ Hs)). reflexivity.
    - unfold unmount, run_cleanup. rewrite Ht. destruct f; simpl in *. now subst. }
  destruct (settled_step a s H) as [H1 _].
  rewrite IH; [exact Hstep | exact H1 | now rewrite Hstep].
Qed.


(** A live subscription for query [q] with state [b]. *)
Lemma render_same_query (q : string) (b : bool) (f : fiber) (p : platform) :
  q <> "" -> torn_down f = false -> deps f = Some q -> pending f = false ->
  mobile f = Some b ->
  render (PStr q) (f, p) = (Some (Ok b), (f, p)).
Proof.
  intros Hq Htd Hd Hp Hm. unfold render. rewrite Htd, (useMatchMedia_query _ _ Hq).
  rewrite Hm, Hd, Hp. simpl. rewrite decide_True by reflexivity.
  unfold commit. simpl.
  destruct f as [mob hd d pe cl td]; simpl in *. now subst.
Qed.

Lemma run_same_query (q : string) (b : bool) (n : nat) (f : fiber) (p : platform) :
  q <> "" -> torn_down f = false -> deps f = Some q -> pending f = false ->
  mobile f = Some b ->
  run (repeat (Render (PStr q)) n) (f, p) = (f, p).
Proof.
  intros Hq Htd Hd Hp Hm. induction n as [|n IH]; [reflexivity |].
  change (run (repeat (Render (PStr q)) (S n)) (f, p))
    with (run (repeat (Render (PStr q)) n) (snd (render (PStr q) (f, p)))).
  now rewrite (render_same_query q b f p).
Qed.

(** The state after mounting with a query string. *)
Lemma mount_state (q : string) (h : listener) (mu : string -> bool) :
  q <> "" ->
  read (PStr q) (initial h mu) = Some (Ok false) /\
  mount (PStr q) h mu
  = ({| mobile := Some (mu q); handleMedia := h; deps := Some q; pending := false;
        cleanup := Some 0%nat; torn_down := false |},
     {| media := mu; mqls := [{| mql_query := q; mql_listeners := [h] |}];
        calls := [Add 0%nat h] |}).
Proof.
  intros Hq. unfold read, mount, initial, render. simpl.
  rewrite (useMatchMedia_query _ _ Hq). simpl. auto.
Qed.

Lemma listens_here (h : listener) (q : string) (mu : string -> bool) (cs : list call) :
  listens h q {| media := mu; mqls := [{| mql_query := q; mql_listeners := [h] |}];
                 calls := cs |} = true.
Proof.
  unfold listens. simpl. rewrite String.eqb_refl.
  rewrite bool_decide_eq_true_2 by (left). reflexivity.
Qed.


(** C1, as stated, fails: with a query that matches, the first value the
    hook returns is [false], the initial value of its state cell. *)
Lemma first_render_returns_false :
  let mu := fun q : string => String.eqb q "(max-width: 896px)" in
  mu "(max-width: 896px)" = true /\
  fst (useMobileMedia (new_fiber 0)) = Ok false /\
  read (PStr "(max-width: 896px)") (initial 0 mu) = Some (Ok false) /\
  read (PStr "(max-width: 896px)") (initial 0 mu) <> Some (Ok true).
Proof.
  intros mu. split; [reflexivity |]. split; [reflexivity |].
  split; [reflexivity | discriminate].
Qed.

(** C1, amended: with a query string that matches, the first render
    returns the initial value [false]; once the component is mounted (the
    effect has registered the listener and set the state to the current
    match), every render before a change event returns [true]; after a
    change event for the query reporting no match, the renders return
    [false]. *)
Theorem useMatchMedia_after_mount (q : string) (h : listener) (mu : string -> bool)
    (n k : nat) :
  q <> "" -> mu q = true ->
  let rerender := Render (PStr q) in
  read (PStr q) (initial h mu) = Some (Ok false) /\
  read (PStr q) (run (repeat rerender n) (mount (PStr q) h mu)) = Some (Ok true) /\
  read (PStr q)
    (run (repeat rerender n ++ [Change q false] ++ repeat rerender k) (mount (PStr q) h mu))
  = Some (Ok false).
Proof.
  intros Hq Hmu rerender. destruct (mount_state q h mu Hq) as [H0 Hmount].
  split; [exact H0 |]. rewrite Hmount, Hmu. unfold rerender.
  split.
  - rewrite (run_same_query q true) by (auto; reflexivity).
    unfold read. now rewrite (render_same_query q true) by (auto; reflexivity).
  - rewrite !run_app.
    rewrite (run_same_query q true) by (auto; reflexivity).
    change (run [Change q false] ?s) with (change q false s).
    unfold change. rewrite listens_here.
    rewrite (run_same_query q false) by (auto; reflexivity).
    unfold read. now rewrite (render_same_query q false) by (auto; reflexivity).
Qed.

Lemma useMatchMedia_after_mount_witness :
  let q := "(max-width: 896px)" in
  let mu := fun q' : string => String.eqb q' q in
  q <> "" /\ mu q = true /\
  read (PStr q) (initial 7 mu) = Some (Ok false) /\
  read (PStr q) (run (repeat (Render (PStr q)) 2) (mount (PStr q) 7 mu)) = Some (Ok true) /\
  read (PStr q)
    (run (repeat (Render (PStr q)) 2 ++ [Change q false] ++ repeat (Render (PStr q)) 1)
       (mount (PStr q) 7 mu))
  = Some (Ok false).
Proof.
  intros q mu.
  split; [discriminate |]. split; [reflexivity |].
  apply (useMatchMedia_after_mount q 7 mu 2 1); [discriminate | reflexivity].
Defined.

(** C3: called without a query, with [null] or with the empty string, the
    hook throws, and it does so before anything else: no cell of the hook is
    initialised or changed, no media query list is created and no listener
    is registered; with a non-empty query string it returns a value. *)
Theorem useMatchMedia_guard (mediaQuery : prop) (f : fiber) (p : platform) :
  (mediaQuery = PUndefined \/ mediaQuery = PNull \/ mediaQuery = PStr "" ->
   useMatchMedia mediaQuery f
   = (Throw (Error (guard_message (default_param PNull mediaQuery))), f) /\
   (torn_down f = false ->
    let '(r, (f', p')) := render mediaQuery (f, p) in
    r = Some (Throw (Error (guard_message (default_param PNull mediaQuery)))) /\
    mobile f' = mobile f /\
    List.length (mqls p') = List.length (mqls p) /\
    (forall m l, Add m l ∈ calls p' -> Add m l ∈ calls p))) /\
  (forall q, mediaQuery = PStr q -> q <> "" ->
   exists b f', useMatchMedia mediaQuery f = (Ok b, f') /\
                (torn_down f = false -> read mediaQuery (f, p) = Some (Ok b))).
Proof.
  split.
  - intros Hmiss. split; [now apply useMatchMedia_missing |].
    intros Htd. unfold render. rewrite Htd, (useMatchMedia_missing _ _ Hmiss).
    unfold unmount, run_cleanup. destruct (cleanup f) as [m|]; simpl.
    + split; [reflexivity |]. split; [reflexivity |]. split; [apply length_alter |].
      intros m' l H. apply elem_of_app in H as [H|H]; [exact H |].
      apply list_elem_of_singleton in H. discriminate H.
    + auto.
  - intros q -> Hq. rewrite (useMatchMedia_query _ _ Hq). do 2 eexists.
    split; [reflexivity |]. intros Htd. unfold read, render.
    rewrite Htd, (useMatchMedia_query _ _ Hq). reflexivity.
Qed.

Lemma useMatchMedia_guard_witness :
  let p := fresh_platform (fun _ => true) in
  render PNull (new_fiber 7, p)
  = (Some (Throw (Error (guard_message PNull))),
     ({| mobile := None; handleMedia := 7; deps := None; pending := false;
         cleanup := None; torn_down := true |}, p)) /\
  useMatchMedia (PStr "") (new_fiber 7) = (Throw (Error (guard_message (PStr ""))), new_fiber 7) /\
  (exists b f', useMatchMedia (PStr "(max-width: 896px)") (new_fiber 7) = (Ok b, f')).
Proof.
  intros p.
  split; [reflexivity |].
  split.
  - apply (proj1 (useMatchMedia_guard (PStr "") (new_fiber 7) p)). auto.
  - destruct (proj2 (useMatchMedia_guard (PStr "(max-width: 896px)") (new_fiber 7) p)
                _ eq_refl) as (b & f' & H & _); [discriminate |].
    exists b, f'. exact H.
Defined.

(** C8: on every run of the component, each registration of the hook's
    listener but the live one has been undone by a deregistration of the
    same listener on the same media query list, and the listener sits on
    the list of the pending cleanup and on no other; a render with another
    query removes the listener and registers it for the new query; a render
    that throws and the teardown leave no registration; after the teardown
    nothing changes the hook's cells, whatever events arrive. *)
Theorem listener_registration_paired (h : listener) (mu : string -> bool)
    (acts later : list action) :
  let s := run acts (initial h mu) in
  let t := run (acts ++ [Unmount]) (initial h mu) in
  outstanding (calls (snd s)) []
  = match cleanup (fst s) with Some m => [(m, h)] | None => [] end /\
  (forall i o, mqls (snd s) !! i = Some o ->
     (h ∈ mql_listeners o <-> cleanup (fst s) = Some i)) /\
  (forall m q q', cleanup (fst s) = Some m -> deps (fst s) = Some q ->
     q' <> q -> q' <> "" ->
     calls (snd (step s (Render (PStr q'))))
     = (calls (snd s) ++ [Remove m h; Add (List.length (mqls (snd s))) h])%list) /\
  (forall mediaQuery, outstanding (calls (snd (step s (Render mediaQuery)))) []
     = match cleanup (fst (step s (Render mediaQuery))) with
       | Some m => [(m, h)]
       | None => []
       end) /\
  outstanding (calls (snd t)) [] = [] /\
  registered h (snd t) = false /\
  fst (run later t) = fst t.
Proof.
  intros s t.
  destruct (settled_run acts _ (settled_initial h mu)) as [Hs Hh].
  fold s in Hs, Hh. simpl in Hh.
  assert (Ht : t = unmount (fst s) (snd s)).
  { unfold t. rewrite run_app. reflexivity. }
  destruct Hs as (Hsub & Hpend & Htorn). rewrite Hh in Hsub.
  destruct (settled_unmount (fst s) (snd s)) as (Hts & Hth & Httd & _);
    [now rewrite Hh |].
  rewrite <- Ht in Hts, Hth, Httd.
  split; [apply Hsub |]. split; [| split; [| split; [| split; [| split]]]].
  - intros i o Hi. destruct Hsub as (Hl & _ & _). rewrite (Hl _ _ Hi).
    destruct (decide (cleanup (fst s) = Some i)) as [E|E].
    + split; [auto | intros _; left].
    + split; [intros H; now apply not_elem_of_nil in H | tauto].
  - intros m q q' Hc Hd Hne Hq'. destruct s as [f p]. simpl in *.
    unfold render. destruct (torn_down f) eqn:Etd.
    { rewrite (Htorn eq_refl) in Hc. discriminate. }
    rewrite (useMatchMedia_query _ _ Hq'). rewrite Hd, Hpend.
    rewrite decide_False by congruence.
    unfold commit, run_cleanup. simpl. rewrite Hc. simpl.
    rewrite length_alter, Hh. now rewrite <- app_assoc.
  - intros mediaQuery.
    destruct (settled_step (Render mediaQuery) s) as [(H1 & _) H2].
    { split; [rewrite Hh; exact Hsub | split; assumption]. }
    rewrite H2, Hh in H1. apply H1.
  - destruct Hts as ((_ & _ & Ho) & _ & Hc). rewrite (Hc Httd) in Ho. exact Ho.
  - destruct Hts as (Hsub' & _ & Hc). rewrite (Hc Httd) in Hsub'.
    rewrite Hth, Hh in Hsub'. now apply subscription_none_registered.
  - apply torn_down_frozen; assumption.
Qed.

Lemma listener_registration_paired_witness :
  let mu := fun _ : string => true in
  let acts := [Render (PStr "(max-width: 896px)"); Change "(max-width: 896px)" false] in
  let s := run acts (initial 7 mu) in
  cleanup (fst s) = Some 0%nat /\ deps (fst s) = Some "(max-width: 896px)" /\
  calls (snd (step s (Render (PStr "(min-width: 1200px)"))))
  = [Add 0%nat 7; Remove 0%nat 7; Add 1%nat 7] /\
  calls (snd (run (acts ++ [Unmount]) (initial 7 mu))) = [Add 0%nat 7; Remove 0%nat 7] /\
  mobile (fst (run [Change "(max-width: 896px)" true] (run (acts ++ [Unmount]) (initial 7 mu))))
  = Some false.
Proof.
  intros mu acts s.
  pose proof (listener_registration_paired 7 mu acts [Change "(max-width: 896px)" true])
    as (_ & _ & Hre & _ & _ & _ & Hfrozen).
  split; [reflexivity |]. split; [reflexivity |].
  split.
  - apply (Hre 0%nat "(max-width: 896px)" "(min-width: 1200px)");
      [reflexivity | reflexivity | discriminate | discriminate].
  - split; [reflexivity |]. rewrite Hfrozen. reflexivity.
Defined.

End HookFacts.

(** * Further properties *)

(** ** [normalizeSlug] *)

Lemma map_chars_length (f : ascii -> ascii) (s : string) :
  String.length (map_chars f s) = String.length s.
Proof. induction s as [|c s IH]; simpl; [reflexivity | now rewrite IH]. Qed.

Lemma map_chars_compose (f g : ascii -> ascii) (s : string) :
  map_chars f (map_chars g s) = map_chars (fun c => f (g c)) s.
Proof. induction s as [|c s IH]; simpl; [reflexivity | now rewrite IH]. Qed.

Lemma map_chars_ext (f g : ascii -> ascii) (s : string) :
  (forall c, f c = g c) -> map_chars f s = map_chars g s.
Proof. intros H. induction s as [|c s IH]; simpl; [reflexivity | now rewrite H, IH]. Qed.

Lemma normalizeSlug_chars (key : string) :
  normalizeSlug (VStr key) = Ok (spaces_to_hyphens (toLowerCase key)).
Proof. unfold normalizeSlug. simpl. f_equal. apply (join_split space hyphen). Qed.

Lemma spaces_to_hyphens_no_space (s : string) : contains space (spaces_to_hyphens s) = false.
Proof.
  induction s as [|c s IH]; [reflexivity |].
  unfold spaces_to_hyphens in *. simpl. rewrite IH, orb_false_r.
  destruct (Ascii.eqb c space) eqn:E; [reflexivity | exact E].
Qed.

(** Lower-casing and hyphenating a character that has been through both,
    or through one of them, changes nothing more. *)
Lemma slug_char_stable (c : ascii) :
  let g := fun x => if Ascii.eqb x space then hyphen else x in
  g (lower_char (g (lower_char c))) = g (lower_char c) /\
  g (lower_char (lower_char c)) = g (lower_char c) /\
  g (lower_char (g c)) = g (lower_char c).
Proof. destruct c as [[] [] [] [] [] [] [] []]; vm_compute; auto. Qed.

(** Lower-casing makes no space and no hyphen, and leaves both as they
    are. *)
Lemma lower_char_space_hyphen (c : ascii) :
  Ascii.eqb (lower_char c) space = Ascii.eqb c space /\
  Ascii.eqb (lower_char c) hyphen = Ascii.eqb c hyphen.
Proof. destruct c as [[] [] [] [] [] [] [] []]; vm_compute; auto. Qed.

Lemma count_hyphens_of_slug (s : string) :
  count_char hyphen (spaces_to_hyphens (toLowerCase s))
  = (count_char space s + count_char hyphen s)%nat.
Proof.
  unfold spaces_to_hyphens, toLowerCase.
  induction s as [|c s IH]; [reflexivity |].
  cbn [map_chars count_char]. rewrite IH.
  destruct (lower_char_space_hyphen c) as [Hs Hh].
  rewrite Hs. destruct (Ascii.eqb c space) eqn:Es.
  - apply Ascii.eqb_eq in Es. subst c. simpl. lia.
  - rewrite Hh. destruct (Ascii.eqb c hyphen); simpl; lia.
Qed.

(** A slug has no space, and no space of the key is dropped or merged with
    its neighbour: the slug has as many hyphens as the key has spaces and
    hyphens together. *)
Theorem normalizeSlug_every_space_a_hyphen (key slug : string) :
  normalizeSlug (VStr key) = Ok slug ->
  contains space slug = false /\
  count_char hyphen slug = (count_char space key + count_char hyphen key)%nat.
Proof.
  rewrite normalizeSlug_chars. intros [= <-]. split.
  - apply spaces_to_hyphens_no_space.
  - apply count_hyphens_of_slug.
Qed.

Lemma normalizeSlug_every_space_a_hyphen_witness :
  normalizeSlug (VStr "  Getting  Started - Now ") = Ok "--getting--started---now-" /\
  contains space "--getting--started---now-" = false /\
  count_char hyphen "--getting--started---now-" = (7 + 1)%nat.
Proof.
  split; [reflexivity |].
  apply (normalizeSlug_every_space_a_hyphen "  Getting  Started - Now "
           "--getting--started---now-").
  reflexivity.
Defined.

(** The slug of a slug is the slug itself. *)
Theorem normalizeSlug_idempotent (key slug : string) :
  normalizeSlug (VStr key) = Ok slug -> normalizeSlug (VStr slug) = Ok slug.
Proof.
  rewrite normalizeSlug_chars. intros [= <-]. rewrite normalizeSlug_chars. f_equal.
  unfold spaces_to_hyphens, toLowerCase. rewrite !map_chars_compose.
  apply map_chars_ext. intros c. apply (slug_char_stable c).
Qed.

Lemma normalizeSlug_idempotent_witness :
  normalizeSlug (VStr "Hello Big World") = Ok "hello-big-world" /\
  normalizeSlug (VStr "hello-big-world") = Ok "hello-big-world".
Proof.
  split; [reflexivity |].
  apply (normalizeSlug_idempotent "Hello Big World" "hello-big-world"). reflexivity.
Defined.

(** Keys that differ only in case, or in a hyphen where the other has a
    space, have the same slug. *)
Theorem normalizeSlug_ignores_case_and_hyphenation (key : string) :
  normalizeSlug (VStr (toLowerCase key)) = normalizeSlug (VStr key) /\
  normalizeSlug (VStr (spaces_to_hyphens key)) = normalizeSlug (VStr key).
Proof.
  rewrite !normalizeSlug_chars. unfold spaces_to_hyphens, toLowerCase.
  rewrite !map_chars_compose. split; f_equal; apply map_chars_ext; intros c;
    apply (slug_char_stable c).
Qed.

(** ** [normalizeTextLayout]: no heading tag is left *)

Section Rescanning.

(** [re] is the pattern looked for in the result of a scan with [re'] and
    [fn']. *)
Variables re re' : regex.
Variable fn' : string -> string -> string.

Hypothesis re_local : tail_rejects_lt re = true.
Hypothesis re'_head : head_lt re' = true.
Hypothesis fn'_head : forall m p1, exists r, fn' m p1 = String "<" r.
Hypothesis fn'_sealed :
  forall x m p1 y, exec re' x = Some (m, p1) -> occurs re (fn' m p1 +:+ y) = occurs re y.

Lemma exec_head (x : string) (r : string * string) :
  exec re' x = Some r -> exists x', x = String "<" x'.
Proof.
  unfold head_lt in re'_head. unfold exec.
  destruct (re_pre re') as [|[c|lo hi] pre']; try discriminate.
  destruct x as [|c1 x]; simpl; [discriminate |].
  destruct (Ascii.eqb_spec c1 c) as [->|]; [| discriminate].
  apply Ascii.eqb_eq in re'_head as ->. eauto.
Qed.

(** The scanned text and its scan share their start up to a cut point. *)
Lemma replace_common_start (s : string) :
  exists u a b, s = u +:+ a /\ replace re' fn' s = u +:+ b /\ cut_point a /\ cut_point b.
Proof.
  unfold replace. induction s as [|c s IH].
  - exists "", "", "". repeat split; now left.
  - cbn [replace_from]. destruct (exec re' (String c s)) as [[m p1]|] eqn:E.
    + destruct (exec_head _ _ E) as [x' Hx]. destruct (fn'_head m p1) as [r Hr].
      exists "", (String c s), (fn' m p1 +:+ replace_from re' fn' (String.length m - 1) s).
      repeat split.
      * right. eauto.
      * right. rewrite Hr. eexists. reflexivity.
    + destruct IH as (u & a & b & Hs & Hr & Ha & Hb).
      exists (String c u), a, b. simpl. rewrite <- Hs, <- Hr. auto.
Qed.

Lemma exec_none_after_scan (c : ascii) (s : string) :
  exec re (String c s) = None -> exec re (String c (replace re' fn' s)) = None.
Proof.
  intros H. destruct (replace_common_start s) as (u & a & b & Hs & Hr & Ha & Hb).
  rewrite Hr. change (String c (u +:+ b)) with (String c u +:+ b).
  apply (exec_app_none re re_local); [exact Hb |].
  destruct (exec re (String c u)) as [r|] eqn:E; [| reflexivity].
  apply (exec_app re _ a) in E. simpl in E. rewrite <- Hs in E. congruence.
Qed.

(** A scan does not bring in an occurrence of [re]. *)
Lemma occurs_after_scan (s : string) (k : nat) :
  occurs re s = false -> occurs re (replace_from re' fn' k s) = false.
Proof.
  revert k. induction s as [|c s IH]; intros k H; [reflexivity |].
  cbn [occurs] in H. apply orb_false_elim in H as [H1 H2].
  destruct k as [|k]; cbn [replace_from]; [| now apply IH].
  destruct (exec re' (String c s)) as [[m p1]|] eqn:E.
  - rewrite (fn'_sealed _ _ _ _ E). now apply IH.
  - cbn [occurs]. rewrite (IH 0%nat H2), orb_false_r.
    destruct (exec re (String c s)) eqn:E1; [discriminate H1 |].
    change (replace_from re' fn' 0 s) with (replace re' fn' s).
    now rewrite exec_none_after_scan.
Qed.

(** A scan with the pattern itself leaves no occurrence of it. *)
Lemma occurs_own_scan (s : string) (k : nat) :
  re' = re -> occurs re (replace_from re' fn' k s) = false.
Proof.
  intros Ere. revert k. induction s as [|c s IH]; intros k; [reflexivity |].
  destruct k as [|k]; cbn [replace_from]; [| now apply IH].
  destruct (exec re' (String c s)) as [[m p1]|] eqn:E.
  - rewrite (fn'_sealed _ _ _ _ E). now apply IH.
  - cbn [occurs]. rewrite (IH 0%nat), orb_false_r.
    change (replace_from re' fn' 0 s) with (replace re' fn' s).
    rewrite exec_none_after_scan; [reflexivity | now rewrite <- Ere].
Qed.

End Rescanning.

Lemma exec_open_group (x m p1 : string) :
  exec re_open x = Some (m, p1) ->
  exists d, is_level d = true /\ p1 = String "h" (String d "").
Proof.
  unfold exec, re_open. cbn [re_pre re_group re_post].
  destruct x as [|c1 [|c2 [|c3 [|c4 x]]]]; cbn [match_atoms];
    repeat match goal with
      | |- context [atom_matches ?a ?c] =>
          destruct (atom_matches a c) eqn:?; cbn [match_atoms]
      end; try discriminate.
  intros [= <- <-]. exists c3. split; [assumption |].
  match goal with H : atom_matches (Lit "h") c2 = true |- _ =>
    apply Ascii.eqb_eq in H; now subst end.
Qed.

Lemma fn_open_head (m p1 : string) : exists r, fn_open m p1 = String "<" r.
Proof. eexists. reflexivity. Qed.

Lemma fn_close_head (m p1 : string) : exists r, fn_close m p1 = String "<" r.
Proof. eexists. reflexivity. Qed.

Lemma fn_open_sealed (x m p1 y : string) :
  exec re_open x = Some (m, p1) -> occurs re_open (fn_open m p1 +:+ y) = occurs re_open y.
Proof.
  intros H. destruct (exec_open_group _ _ _ H) as (d & Hd & ->).
  each_level d Hd; reflexivity.
Qed.

Lemma fn_close_sealed_open (x m p1 y : string) :
  exec re_close x = Some (m, p1) -> occurs re_open (fn_close m p1 +:+ y) = occurs re_open y.
Proof. reflexivity. Qed.

Lemma fn_close_sealed_close (x m p1 y : string) :
  exec re_close x = Some (m, p1) -> occurs re_close (fn_close m p1 +:+ y) = occurs re_close y.
Proof. reflexivity. Qed.

Lemma rewrite_headings_clean (s : string) :
  occurs re_open (rewrite_headings s) = false /\ occurs re_close (rewrite_headings s) = false.
Proof.
  unfold rewrite_headings, replace. split.
  - apply (occurs_after_scan re_open re_close fn_close re_open_local eq_refl
             fn_close_head fn_close_sealed_open).
    apply (occurs_own_scan re_open re_open fn_open re_open_local eq_refl
             fn_open_head fn_open_sealed); reflexivity.
  - apply (occurs_own_scan re_close re_close fn_close re_close_local eq_refl
             fn_close_head fn_close_sealed_close); reflexivity.
Qed.



(** Normalizing a normalized text changes nothing. *)
Theorem normalizeTextLayout_idempotent (html out : string) :
  normalizeTextLayout (VStr html) = Ok out -> normalizeTextLayout (VStr out) = Ok out.
Proof.
  intros [= <-]. destruct (rewrite_headings_clean html) as [H1 H2].
  change (Ok (rewrite_headings (rewrite_headings html)) = Ok (rewrite_headings html)).
  f_equal. now apply rewrite_headings_plain.
Qed.

Lemma normalizeTextLayout_idempotent_witness :
  let out := "<div class=" +:+ String dquote "h3" +:+ String dquote ">News</div><p>text</p>" in
  normalizeTextLayout (VStr "<h3>News</h3><p>text</p>") = Ok out /\
  normalizeTextLayout (VStr out) = Ok out.
Proof.
  intros out. split; [reflexivity |].
  apply (normalizeTextLayout_idempotent "<h3>News</h3><p>text</p>"). reflexivity.
Defined.

(** ** Class strings *)

Lemma eqb_app_longer (a b : string) (c : ascii) : String.eqb (a +:+ String c b) a = false.
Proof.
  induction a as [|x a IH]; [reflexivity |].
  simpl. now rewrite Ascii.eqb_refl.
Qed.

(** The [className] of [Button] and of the container of [Icon]: the base
    and the base with the main style, followed, for a sub style that is a
    non-empty string, by the base with both; a sub style that is left out,
    [null] or the empty string adds no name.  The main style is [fill]
    for [Button] and [inline] for [Icon] when it is left out, and reads
    [null] when it is [null]. *)
Theorem variant_class_string (main sub : string) (absent : prop) :
  sub <> "" ->
  absent = PUndefined \/ absent = PNull \/ absent = PStr "" ->
  (classNames (Button_classes (PStr main) (PStr sub))
   = "btn btn--" +:+ main +:+ " btn--" +:+ main +:+ "--" +:+ sub /\
   classNames (Button_classes PUndefined (PStr sub)) = "btn btn--fill btn--fill--" +:+ sub /\
   classNames (Button_classes PNull (PStr sub)) = "btn btn--null btn--null--" +:+ sub /\
   classNames (Button_classes (PStr main) absent) = "btn btn--" +:+ main /\
   classNames (Button_classes PUndefined absent) = "btn btn--fill" /\
   classNames (Button_classes PNull absent) = "btn btn--null") /\
  (classNames (Icon_classes (PStr main) (PStr sub))
   = "icon icon--" +:+ main +:+ " icon--" +:+ main +:+ "--" +:+ sub /\
   classNames (Icon_classes PUndefined (PStr sub))
   = "icon icon--inline icon--inline--" +:+ sub /\
   classNames (Icon_classes PNull (PStr sub)) = "icon icon--null icon--null--" +:+ sub /\
   classNames (Icon_classes (PStr main) absent) = "icon icon--" +:+ main /\
   classNames (Icon_classes PUndefined absent) = "icon icon--inline" /\
   classNames (Icon_classes PNull absent) = "icon icon--null").
Proof.
  intros Hsub Habsent.
  assert (Ht : truthy (PStr sub) = true) by now apply truthy_PStr.
  unfold Button_classes, Icon_classes. cbn [default_param]. rewrite Ht.
  assert (Ha : truthy (default_param PNull absent) = false).
  { destruct Habsent as [-> | [-> | ->]]; reflexivity. }
  rewrite Ha. cbn [template set_class].
  repeat split; simpl; rewrite ?(eqb_app_longer _ _ "-"); reflexivity.
Qed.

Lemma variant_class_string_witness :
  "small" <> "" /\
  classNames (Button_classes (PStr "outline") (PStr "small"))
  = "btn btn--outline btn--outline--small" /\
  classNames (Button_classes PNull (PStr "small")) = "btn btn--null btn--null--small" /\
  classNames (Button_classes (PStr "outline") (PStr "")) = "btn btn--outline" /\
  classNames (Icon_classes PUndefined (PStr "small")) = "icon icon--inline icon--inline--small" /\
  classNames (Icon_classes PUndefined (PStr "")) = "icon icon--inline".
Proof.
  split; [discriminate |].
  destruct (variant_class_string "outline" "small" (PStr ""))
    as ((B1 & _ & B3 & B4 & _) & (_ & I2 & _ & _ & I5 & _));
    [discriminate | auto |].
  split; [exact B1 |]. split; [exact B3 |]. split; [exact B4 |].
  split; [exact I2 | exact I5].
Defined.

(** The [className] of the section of [Latest] is [latest], then [latest--]
    with the label, then [pad] and [bg-pink], separated by one space: the
    label itself when it is a string, [null] when it is [null] and
    [undefined] when it is absent. *)
Theorem Latest_class_string (data : ContentBlock) :
  (forall s, label data = PStr s ->
     classNames (Latest_classes data) = "latest latest--" +:+ s +:+ " pad bg-pink") /\
  (label data = PNull ->
     classNames (Latest_classes data) = "latest latest--null pad bg-pink") /\
  (label data = PUndefined ->
     classNames (Latest_classes data) = "latest latest--undefined pad bg-pink").
Proof.
  unfold Latest_classes.
  split; [| split]; [intros s E | intros E | intros E]; rewrite E; reflexivity.
Qed.

Lemma Latest_class_string_witness :
  let given := {| headline := "News"; subtext := VStr "One line"; label := PStr "release" |} in
  let null := {| headline := "News"; subtext := VStr "One line"; label := PNull |} in
  let absent := {| headline := "News"; subtext := VStr "One line"; label := PUndefined |} in
  label given = PStr "release" /\ label null = PNull /\ label absent = PUndefined /\
  classNames (Latest_classes given) = "latest latest--release pad bg-pink" /\
  classNames (Latest_classes null) = "latest latest--null pad bg-pink" /\
  classNames (Latest_classes absent) = "latest latest--undefined pad bg-pink".
Proof.
  intros given null absent.
  pose proof (Latest_class_string given) as (Hg & _).
  pose proof (Latest_class_string null) as (_ & Hn & _).
  pose proof (Latest_class_string absent) as (_ & _ & Ha).
  split; [reflexivity |]. split; [reflexivity |]. split; [reflexivity |].
  split; [apply (Hg "release"); reflexivity |].
  split; [apply Hn; reflexivity | apply Ha; reflexivity].
Defined.

(** ** [Icon]: inline or styled *)

(** A registered icon is rendered bare when the main style is left out or
    is [inline], whatever the sub style; with any other main style it is
    put in a container that carries the variant classes. *)
Theorem Icon_inline_or_styled {Comp Props : Type}
    (Icons : namespace Comp) (name : string) (c : Comp)
    (mainStyle subStyle : prop) (props : Props) :
  exports Icons !! name = Some c ->
  (mainStyle = PUndefined \/ mainStyle = PStr "inline" ->
   Icon Icons name mainStyle subStyle props = VComp (Fn c) props) /\
  (mainStyle <> PUndefined -> mainStyle <> PStr "inline" ->
   Icon Icons name mainStyle subStyle props
   = VElem "div" (Some (classNames (Icon_classes mainStyle subStyle))) [VComp (Fn c) props]).
Proof.
  intros H. unfold Icon, read_member. rewrite H. cbn [member_truthy negb]. split.
  - intros [-> | ->]; reflexivity.
  - intros H1 H2. destruct mainStyle as [| |s]; [congruence | reflexivity |].
    simpl. destruct (String.eqb_spec s "inline") as [->|]; [congruence | reflexivity].
Qed.

Lemma Icon_inline_or_styled_witness :
  let Icons : namespace nat := {| exports := {[ "Menu" := 1%nat ]}; others := ∅ |} in
  exports Icons !! "Menu" = Some 1%nat /\
  Icon Icons "Menu" (PStr "inline") (PStr "small") tt = VComp (Fn 1%nat) tt /\
  Icon Icons "Menu" PNull (PStr "small") tt
  = VElem "div" (Some "icon icon--null icon--null--small") [VComp (Fn 1%nat) tt].
Proof.
  intros Icons.
  pose proof (Icon_inline_or_styled Icons "Menu" 1%nat (PStr "inline") (PStr "small") tt eq_refl)
    as [H1 _].
  pose proof (Icon_inline_or_styled Icons "Menu" 1%nat PNull (PStr "small") tt eq_refl)
    as [_ H2].
  split; [reflexivity |]. split.
  - apply H1. now right.
  - apply H2; discriminate.
Defined.

(** ** [Latest]: one block per paragraph *)

(** The subtext blocks of [Latest]: one for a subtext that is not a
    sequence, carrying it as its HTML, and one per item, in order, for a
    sequence; an empty sequence gives none. *)
Theorem Latest_subtext_blocks {Comp Props : Type} (data : ContentBlock) :
  let block := fun html : value => VElem (Comp := Comp) (Props := Props) "div" None [VInnerHtml html] in
  exists cls head,
    Latest data
    = VElem "section" cls
        [VElem "div" (Some "wrap latest__wrap")
           [head;
            VElem "div" (Some "latest__subtext")
              [VElem "h3" (Some "h5")
                 (match subtext data with
                  | VArr items => map block items
                  | html => [block html]
                  end)]]].
Proof.
  intros block. unfold Latest. do 2 eexists. repeat f_equal.
  destruct (subtext data); reflexivity.
Qed.

(** ** [Button] and [Hero] *)

Lemma get_set_attr (k : string) (v : prop) (attrs : list (string * prop)) :
  get_attr k (set_attr k v attrs) = v.
Proof.
  induction attrs as [|[k' v'] attrs IH]; simpl.
  - now rewrite String.eqb_refl.
  - destruct (String.eqb k k') eqn:E; simpl; now rewrite E.
Qed.

Lemma get_set_attr_ne (k k' : string) (v : prop) (attrs : list (string * prop)) :
  k' <> k -> get_attr k' (set_attr k v attrs) = get_attr k' attrs.
Proof.
  intros Hne. induction attrs as [|[k0 v0] attrs IH]; simpl.
  - destruct (String.eqb_spec k' k); [contradiction | reflexivity].
  - destruct (String.eqb_spec k k0) as [->|]; simpl.
    + destruct (String.eqb_spec k' k0); [contradiction | reflexivity].
    + now rewrite IH.
Qed.

(** [Button] renders the link to [href] around one anchor holding the
    children; the anchor's [className] is the variant class string, also
    when the props passed through hold a [className] of their own, and
    every other prop reaches the anchor as given. *)
Theorem Button_anchor (children : element) (href mainStyle subStyle : prop)
    (props : list (string * prop)) :
  exists attrs,
    Button children href mainStyle subStyle props = ELink href (EHost "a" attrs [children]) /\
    get_attr "className" attrs = PStr (classNames (Button_classes mainStyle subStyle)) /\
    (forall k, k <> "className" -> get_attr k attrs = get_attr k props).
Proof.
  eexists. split; [reflexivity |]. split.
  - apply get_set_attr.
  - intros k Hk. now apply get_set_attr_ne.
Qed.

Lemma Button_anchor_witness :
  exists attrs,
    Button (EChild (PStr "Docs")) (PStr "/docs") PUndefined PUndefined
      [("className", PStr "mine"); ("target", PStr "_blank")]
    = ELink (PStr "/docs") (EHost "a" attrs [EChild (PStr "Docs")]) /\
    "target" <> "className" /\
    get_attr "className" attrs = PStr "btn btn--fill" /\
    get_attr "target" attrs = PStr "_blank".
Proof.
  destruct (Button_anchor (EChild (PStr "Docs")) (PStr "/docs") PUndefined PUndefined
              [("className", PStr "mine"); ("target", PStr "_blank")])
    as (attrs & H1 & H2 & H3).
  exists attrs. split; [exact H1 |]. split; [discriminate |]. split; [exact H2 |].
  rewrite (H3 "target"); [reflexivity | discriminate].
Defined.

(** [Hero]: the section carries [hero] and [pad], followed by [hero--]
    with the sub style when that is a non-empty string and by nothing when
    it is left out, [null] or empty; there is one subtext block per
    paragraph; the call to action is rendered when [data.cta] is a non-empty
    string, as a button in the default [fill] style that links to
    [data.url] and opens it in a new tab, and when [data.cta] is left out,
    [null] or empty the falsy value itself stands in its place. *)
Theorem Hero_sections (data : HeroData) (subStyle : prop) :
  let block := fun text : value => EHost "div" [] [EValue text] in
  exists cls headline action,
    Hero data subStyle
    = EHost "section" [("className", PStr cls)]
        [EHost "div" [("className", PStr "wrap hero__wrap")]
           [headline;
            EHost "div" [("className", PStr "hero__subtext")]
              [EHost "h2" [("className", PStr "h5")]
                 (match hero_subtext data with
                  | VArr items => map block items
                  | text => [block text]
                  end)];
            action]] /\
    (forall s, subStyle = PStr s -> s <> "" -> cls = "hero pad hero--" +:+ s) /\
    (subStyle = PUndefined \/ subStyle = PNull \/ subStyle = PStr "" -> cls = "hero pad") /\
    (forall c, cta data = PStr c -> c <> "" ->
       action = EHost "div" [("className", PStr "hero__cta")]
                  [ELink (url data)
                     (EHost "a" [("target", PStr "_blank");
                                 ("className", PStr "btn btn--fill")]
                        [EChild (PStr c)])]) /\
    (cta data = PUndefined \/ cta data = PNull \/ cta data = PStr "" ->
     action = EChild (cta data)).
Proof.
  intros block. unfold Hero. do 3 eexists. split; [| split; [| split; [| split]]].
  - assert (Hsub : map block (items_of (normalizeSubtext (hero_subtext data)))
                   = match hero_subtext data with
                     | VArr items => map block items
                     | text => [block text]
                     end).
    { destruct (hero_subtext data); reflexivity. }
    fold block. rewrite Hsub. reflexivity.
  - intros s -> Hs. unfold Hero_classes. rewrite (truthy_PStr _ Hs). reflexivity.
  - intros [-> | [-> | ->]]; reflexivity.
  - intros c -> Hc. rewrite (truthy_PStr _ Hc). reflexivity.
  - intros [-> | [-> | ->]]; reflexivity.
Qed.

Lemma Hero_sections_witness :
  let data := {| hero_headline := "Voice"; hero_subtext := VArr [VStr "One"; VStr "Two"];
                 cta := PStr "Sign up"; url := PStr "/register" |} in
  let quiet := {| hero_headline := "Voice"; hero_subtext := VStr "One";
                  cta := PStr ""; url := PUndefined |} in
  "jambonz" <> "" /\ "Sign up" <> "" /\
  Hero data (PStr "jambonz")
  = EHost "section" [("className", PStr "hero pad hero--jambonz")]
      [EHost "div" [("className", PStr "wrap hero__wrap")]
         [EHost "div" [("className", PStr "hero__headline")]
            [EHost "h1" [] [EChild (PStr "Voice")]];
          EHost "div" [("className", PStr "hero__subtext")]
            [EHost "h2" [("className", PStr "h5")]
               [EHost "div" [] [EValue (VStr "One")]; EHost "div" [] [EValue (VStr "Two")]]];
          EHost "div" [("className", PStr "hero__cta")]
            [ELink (PStr "/register")
               (EHost "a" [("target", PStr "_blank"); ("className", PStr "btn btn--fill")]
                  [EChild (PStr "Sign up")])]]] /\
  Hero quiet (PStr "")
  = EHost "section" [("className", PStr "hero pad")]
      [EHost "div" [("className", PStr "wrap hero__wrap")]
         [EHost "div" [("className", PStr "hero__headline")]
            [EHost "h1" [] [EChild (PStr "Voice")]];
          EHost "div" [("className", PStr "hero__subtext")]
            [EHost "h2" [("className", PStr "h5")] [EHost "div" [] [EValue (VStr "One")]]];
          EChild (PStr "")]].
Proof.
  intros data quiet.
  split; [discriminate |]. split; [discriminate |].
  destruct (Hero_sections data (PStr "jambonz")) as (cls & hl & act & E & Hc & _ & Ha & _).
  destruct (Hero_sections quiet (PStr "")) as (cls' & hl' & act' & E' & _ & Hc' & _ & Ha').
  split.
  - rewrite E, (Hc "jambonz" eq_refl), (Ha "Sign up" eq_refl) by discriminate.
    injection E as _ <- _. reflexivity.
  - rewrite E', Hc', Ha' by auto.
    injection E' as _ <- _. reflexivity.
Defined.

(** ** The hook's state follows the platform *)

Module HookSync.

Import Hook HookFacts.

Lemma listens_elim (h : listener) (q : string) (p : platform) :
  listens h q p = true ->
  exists i o, mqls p !! i = Some o /\ mql_query o = q /\ h ∈ mql_listeners o.
Proof.
  unfold listens. intros H. apply existsb_exists in H as (o & Hin & Ho).
  apply andb_prop in Ho as [Hq Hl]. apply String.eqb_eq in Hq.
  apply bool_decide_eq_true_1 in Hl.
  apply list_elem_of_In, list_elem_of_lookup in Hin as [i Hi]. eauto.
Qed.

Lemma listens_intro (h : listener) (p : platform) (i : nat) (o : mql) :
  mqls p !! i = Some o -> h ∈ mql_listeners o -> listens h (mql_query o) p = true.
Proof.
  intros Hi Hl. unfold listens. apply existsb_exists. exists o. split.
  - apply list_elem_of_In, list_elem_of_lookup. eauto.
  - rewrite String.eqb_refl. simpl. now apply bool_decide_eq_true_2.
Qed.

(** What the effect leaves behind. *)
Lemma effect_state (q : string) (f : fiber) (p : platform) :
  let s := effect q f p in
  media (snd s) = media p /\
  mobile (fst s) = Some (media p q) /\
  deps (fst s) = deps f /\ torn_down (fst s) = torn_down f /\
  exists o, cleanup (fst s) = Some (List.length (mqls p)) /\
            mqls (snd s) !! List.length (mqls p) = Some o /\ mql_query o = q.
Proof.
  unfold effect, matchMedia, addEventListener, matches. simpl.
  assert (Hl : alter (add_listener (handleMedia f)) (List.length (mqls p))
                 (mqls p ++ [{| mql_query := q; mql_listeners := [] |}])%list
               !! List.length (mqls p)
               = Some (add_listener (handleMedia f) {| mql_query := q; mql_listeners := [] |})).
  { rewrite list_lookup_alter_eq, lookup_app_r by lia. now rewrite Nat.sub_diag. }
  rewrite Hl. simpl. repeat split; eauto.
Qed.

Lemma in_sync_render (mediaQuery : prop) (s : fiber * platform) :
  settled s -> in_sync s -> in_sync (snd (render mediaQuery s)).
Proof.
  destruct s as [f p]. intros (Hs & Hp & Ht) Hsync. simpl in Hs, Hp, Ht.
  unfold in_sync in Hsync. simpl in Hsync. unfold render.
  destruct (torn_down f) eqn:Etd.
  { simpl. unfold in_sync. simpl. congruence. }
  specialize (Hsync eq_refl).
  destruct (query_cases mediaQuery) as [Hmiss | (q & -> & Hq)].
  - rewrite (useMatchMedia_missing _ _ Hmiss). simpl.
    destruct (settled_unmount f p Hs) as (_ & _ & Htd & _).
    unfold in_sync. congruence.
  - rewrite (useMatchMedia_query _ _ Hq). simpl. rewrite Hp.
    unfold commit. simpl.
    destruct (decide (deps f = Some q)) as [E|E].
    + destruct (Hsync q E) as (_ & Hm & Hc).
      unfold in_sync. simpl. intros _ q' [= <-]. rewrite Hm. simpl. auto.
    + set (f1 := {| mobile := _ |}).
      assert (Hs1 : subscription (cleanup f1) (handleMedia f1) p) by exact Hs.
      destruct (subscription_cleanup f1 p Hs1) as (_ & _ & Hmedia & Hf2).
      destruct (run_cleanup f1 p) as [f2 p2]. simpl in Hmedia, Hf2. subst f2. simpl.
      destruct (effect_state q (set_pending false (set_cleanup None f1)) p2)
        as (Hm1 & Hm2 & Hd & _ & o & Hc & Hl & Ho).
      unfold in_sync. intros _ q'. rewrite Hd. intros Hq'. simpl in Hq'.
      injection Hq' as <-.
      split; [exact Hq |]. split; [now rewrite Hm2, Hm1 | eauto].
Qed.

Lemma in_sync_change (q0 : string) (b : bool) (s : fiber * platform) :
  settled s -> in_sync s ->
  in_sync (change q0 b s) /\
  (torn_down (fst s) = false -> forall q, deps (fst s) = Some q ->
   listens (handleMedia (fst s)) q0 (snd s) = String.eqb q q0).
Proof.
  destruct s as [f p]. intros ((Hl & _ & _) & _ & _) Hsync. simpl in Hl.
  unfold in_sync in Hsync. simpl in Hsync.
  assert (Hlis : torn_down f = false -> forall q, deps f = Some q ->
                 listens (handleMedia f) q0 p = String.eqb q q0).
  { intros Htd q Hd. destruct (Hsync Htd q Hd) as (_ & _ & m & o & Hc & Hm & Ho).
    assert (Hin : handleMedia f ∈ mql_listeners o).
    { rewrite (Hl _ _ Hm), decide_True by exact Hc. left. }
    destruct (String.eqb_spec q q0) as [<-|Hne].
    - rewrite <- Ho. now apply (listens_intro _ _ m).
    - destruct (listens (handleMedia f) q0 p) eqn:E; [| reflexivity].
      apply listens_elim in E as (i & o' & Hi & Hq' & Hin').
      rewrite (Hl _ _ Hi) in Hin'. destruct (decide (cleanup f = Some i)) as [Ei|];
        [| now apply not_elem_of_nil in Hin'].
      assert (i = m) as -> by congruence. congruence. }
  split; [| exact Hlis].
  unfold change, in_sync. intros Htd q Hd.
  assert (Htd' : torn_down f = false).
  { destruct (listens (handleMedia f) q0 p); exact Htd. }
  assert (Hd' : deps f = Some q).
  { destruct (listens (handleMedia f) q0 p); exact Hd. }
  destruct (Hsync Htd' q Hd') as (Hq & Hm & Hc).
  rewrite (Hlis Htd' q Hd'). split; [exact Hq |].
  destruct (String.eqb q q0) eqn:E; simpl; rewrite E; auto.
Qed.

Lemma in_sync_step (a : action) (s : fiber * platform) :
  settled s -> in_sync s -> in_sync (step s a).
Proof.
  intros Hs Hsync. destruct a as [mq|q b|]; simpl.
  - now apply in_sync_render.
  - now apply in_sync_change.
  - destruct Hs as (Hsub & _ & _).
    destruct (settled_unmount _ _ Hsub) as (_ & _ & Htd & _).
    unfold in_sync. congruence.
Qed.

Lemma in_sync_run (acts : list action) (s : fiber * platform) :
  settled s -> in_sync s -> in_sync (run acts s).
Proof.
  unfold run. revert s. induction acts as [|a acts IH]; intros s Hs Hsync; [exact Hsync |].
  simpl. apply IH.
  - now apply settled_step.
  - now apply in_sync_step.
Qed.

Lemma in_sync_initial (h : listener) (mu : string -> bool) : in_sync (initial h mu).
Proof. unfold in_sync, initial. simpl. discriminate. Qed.

(** While the component is mounted, the state cell holds what the platform
    says now about the query of the last render, through every re-render,
    change of query and change event; and so the next render returns it. *)
Theorem state_follows_platform (h : listener) (mu : string -> bool)
    (acts : list action) (q : string) :
  let s := run acts (initial h mu) in
  torn_down (fst s) = false -> deps (fst s) = Some q ->
  mobile (fst s) = Some (media (snd s) q) /\
  read (PStr q) s = Some (Ok (media (snd s) q)).
Proof.
  intros s Htd Hd.
  destruct (settled_run acts _ (settled_initial h mu)) as [(_ & Hp & _) _].
  destruct (in_sync_run acts _ (settled_initial h mu) (in_sync_initial h mu) Htd q Hd)
    as (Hq & Hm & _).
  fold s in Hp, Hm. split; [exact Hm |].
  unfold read. destruct s as [f p]. cbn [fst snd] in *.
  now rewrite (render_same_query q (media p q) f p).
Qed.

Lemma state_follows_platform_witness :
  let wide := "(min-width: 1200px)" in
  let narrow := "(max-width: 896px)" in
  let mu := fun q : string => String.eqb q narrow in
  let s := run [Render (PStr narrow); Change narrow false; Render (PStr wide);
                Change narrow true; Change wide true] (initial 7 mu) in
  torn_down (fst s) = false /\ deps (fst s) = Some wide /\
  media (snd s) wide = true /\ read (PStr wide) s = Some (Ok true).
Proof.
  intros wide narrow mu s.
  split; [reflexivity |]. split; [reflexivity |]. split; [reflexivity |].
  apply (state_follows_platform 7 mu
           [Render (PStr narrow); Change narrow false; Render (PStr wide);
            Change narrow true; Change wide true] wide); reflexivity.
Defined.

(** A render with the query of the last render changes nothing: no cell of
    the hook, no media query list, and no call to the platform. *)
Theorem rerender_same_query_changes_nothing (h : listener) (mu : string -> bool)
    (acts : list action) (q : string) :
  let s := run acts (initial h mu) in
  torn_down (fst s) = false -> deps (fst s) = Some q ->
  snd (render (PStr q) s) = s.
Proof.
  intros s Htd Hd.
  destruct (settled_run acts _ (settled_initial h mu)) as [(_ & Hp & _) _].
  destruct (in_sync_run acts _ (settled_initial h mu) (in_sync_initial h mu) Htd q Hd)
    as (Hq & Hm & _).
  fold s in Hp, Hm. destruct s as [f p]. cbn [fst snd] in *.
  now rewrite (render_same_query q (media p q) f p).
Qed.

Lemma rerender_same_query_changes_nothing_witness :
  let q := "(max-width: 896px)" in
  let mu := fun _ : string => true in
  let s := run [Render (PStr q); Change q false] (initial 7 mu) in
  torn_down (fst s) = false /\ deps (fst s) = Some q /\
  calls (snd (snd (render (PStr q) s))) = [Add 0%nat 7] /\
  snd (render (PStr q) s) = s.
Proof.
  intros q mu s.
  split; [reflexivity |]. split; [reflexivity |]. split; [reflexivity |].
  apply (rerender_same_query_changes_nothing 7 mu [Render (PStr q); Change q false] q);
    reflexivity.
Defined.

(** While the component is mounted with query [q], a change event for [q]
    sets the state to what the event reports, and a change event for any
    other query leaves the hook's cells as they are. *)
Theorem change_event_for_own_query_only (h : listener) (mu : string -> bool)
    (acts : list action) (q q0 : string) (b : bool) :
  let s := run acts (initial h mu) in
  torn_down (fst s) = false -> deps (fst s) = Some q ->
  mobile (fst (change q b s)) = Some b /\
  (q0 <> q -> fst (change q0 b s) = fst s).
Proof.
  intros s Htd Hd.
  destruct (settled_run acts _ (settled_initial h mu)) as [Hs _].
  pose proof (in_sync_run acts _ (settled_initial h mu) (in_sync_initial h mu)) as Hsync.
  fold s in Hs, Hsync.
  destruct (in_sync_change q b s Hs Hsync) as [_ H1].
  destruct (in_sync_change q0 b s Hs Hsync) as [_ H2].
  specialize (H1 Htd q Hd). specialize (H2 Htd q Hd).
  destruct s as [f p]. simpl in *. unfold change.
  rewrite H1, H2, String.eqb_refl. split; [reflexivity |].
  intros Hne. destruct (String.eqb_spec q q0); [congruence | reflexivity].
Qed.

Lemma change_event_for_own_query_only_witness :
  let q := "(max-width: 896px)" in
  let mu := fun _ : string => true in
  let s := run [Render (PStr q)] (initial 7 mu) in
  torn_down (fst s) = false /\ deps (fst s) = Some q /\
  "(min-width: 1200px)" <> q /\
  mobile (fst (change q false s)) = Some false /\
  fst (change "(min-width: 1200px)" false s) = fst s.
Proof.
  intros q mu s.
  pose proof (change_event_for_own_query_only 7 mu [Render (PStr q)] q
                "(min-width: 1200px)" false eq_refl eq_refl) as [H1 H2].
  split; [reflexivity |]. split; [reflexivity |]. split; [discriminate |].
  split; [exact H1 | apply H2; discriminate].
Defined.

End HookSync.
